(** * A shallow embedding of the writing assistant

    The development follows the Python sources file by file:
    [config_manager.py] (merging and validating the configuration),
    [gemini_client.py] (sliding-window rate limiter and retry loop),
    [text_handler.py] (clipboard swap) and [main.py] (the hotkey
    callback and its processing lock).

    Conventions.
    - Time is a rational number of seconds.  [time.time()] reads the clock
      of the world and [time.sleep d] advances it by [d].
    - A text handled by the assistant is a sequence of Unicode code points;
      identifiers of the program (dictionary keys, mode names, notification
      messages) are [string]s.
    - Effects are threaded through a state-and-exception monad over a
      [World]; everything observable (sleeps, provider calls, scripted
      keystrokes) is appended to a chronological trace.
    - Calls to the logger have no modelled effect. *)

From Stdlib Require Import List String Ascii Bool Arith ZArith NArith QArith Lia Lqa.
Import ListNotations.

Local Open Scope Z_scope.

(** ** Python strings *)

Definition codepoint := N.
Definition pystr := list codepoint.

Definition pystr_of_string (s : string) : pystr :=
  map N_of_ascii (list_ascii_of_string s).

(** [str.isspace] on one code point, as CPython's Unicode database has it. *)
Definition py_isspace (c : codepoint) : bool :=
  ((9 <=? c) && (c <=? 13) ||
   (28 <=? c) && (c <=? 32) ||
   (c =? 133) || (c =? 160) || (c =? 5760) ||
   (8192 <=? c) && (c <=? 8202) ||
   (c =? 8232) || (c =? 8233) || (c =? 8239) || (c =? 8287) ||
   (c =? 12288))%N.

Fixpoint lstrip (s : pystr) : pystr :=
  match s with
  | [] => []
  | c :: r => if py_isspace c then lstrip r else s
  end.

Definition rstrip (s : pystr) : pystr := rev (lstrip (rev s)).

(** [s.strip()] *)
Definition strip (s : pystr) : pystr := rstrip (lstrip s).

(** Truth value of a string: non-empty. *)
Definition str_truthy (s : pystr) : bool :=
  match s with [] => false | _ :: _ => true end.

(** Truth value of an optional string ([None] is false). *)
Definition opt_truthy (o : option pystr) : bool :=
  match o with None => false | Some s => str_truthy s end.

(** ** Exceptions, events and the world *)

Inductive exn : Type :=
| IndexError
| AttributeError
| TypeError
| ValueError
| ProviderError.

(** The scripts handed to [osascript]. *)
Inductive script : Type :=
| KeystrokeCopy
| KeystrokePaste
| DisplayNotification (title message : string).

Inductive event : Type :=
| ESleep (d : Q)
| EGenerate (prompt : pystr)
| EScript (s : script) (ok : bool)
| EPasted (content : option pystr).

(** What one call of [model.generate_content] does: it raises, or it
    returns a response whose [text] may be empty. *)
Inductive reply : Type :=
| Raises
| Responds (text : pystr).

(** The part of the environment the program cannot change. *)
Record Env : Type := mkEnv {
  provider : nat -> reply;        (* reply to the i-th provider call *)
  osascript_ok : nat -> bool;     (* does the i-th script run succeed *)
  selection : option pystr        (* text selected in the focused window *)
}.

Record World : Type := mkWorld {
  clock : Q;
  trace : list event;
  api_calls : nat;
  scripts_run : nat;
  clipboard : option pystr;
  request_times : list Q;
  lock_held : bool
}.

Definition set_clock (c : Q) (w : World) : World :=
  mkWorld c (trace w) (api_calls w) (scripts_run w) (clipboard w)
          (request_times w) (lock_held w).

Definition emit (e : event) (w : World) : World :=
  mkWorld (clock w) (trace w ++ [e]) (api_calls w) (scripts_run w)
          (clipboard w) (request_times w) (lock_held w).

Definition incr_api_calls (w : World) : World :=
  mkWorld (clock w) (trace w) (S (api_calls w)) (scripts_run w)
          (clipboard w) (request_times w) (lock_held w).

Definition incr_scripts_run (w : World) : World :=
  mkWorld (clock w) (trace w) (api_calls w) (S (scripts_run w))
          (clipboard w) (request_times w) (lock_held w).

Definition set_clipboard (c : option pystr) (w : World) : World :=
  mkWorld (clock w) (trace w) (api_calls w) (scripts_run w) c
          (request_times w) (lock_held w).

Definition set_request_times (l : list Q) (w : World) : World :=
  mkWorld (clock w) (trace w) (api_calls w) (scripts_run w) (clipboard w)
          l (lock_held w).

Definition set_lock_held (b : bool) (w : World) : World :=
  mkWorld (clock w) (trace w) (api_calls w) (scripts_run w) (clipboard w)
          (request_times w) b.

(** ** The monad *)

Inductive res (A : Type) : Type :=
| Ok (a : A)
| Raise (e : exn).
Arguments Ok {A} a.
Arguments Raise {A} e.

Definition M (A : Type) : Type := World -> res A * World.

Definition ret {A} (a : A) : M A := fun w => (Ok a, w).

Definition raise {A} (e : exn) : M A := fun w => (Raise e, w).

Definition bind {A B} (m : M A) (k : A -> M B) : M B :=
  fun w =>
    match m w with
    | (Ok a, w') => k a w'
    | (Raise e, w') => (Raise e, w')
    end.

Notation "x <- m ;; k" := (bind m (fun x => k))
  (at level 61, m at next level, right associativity).
Notation "m ;;; k" := (bind m (fun _ => k))
  (at level 61, right associativity).

(** [try: body except Exception: handler] *)
Definition try_except {A} (body : M A) (handler : exn -> M A) : M A :=
  fun w =>
    match body w with
    | (Ok a, w') => (Ok a, w')
    | (Raise e, w') => handler e w'
    end.

(** [try: body finally: cleanup], where [cleanup] does not raise. *)
Definition try_finally {A} (body : M A) (cleanup : World -> World) : M A :=
  fun w => let (r, w') := body w in (r, cleanup w').

Definition gets {A} (f : World -> A) : M A := fun w => (Ok (f w), w).

Definition modify (f : World -> World) : M unit := fun w => (Ok tt, f w).

(** ** [time] *)

Definition time_time : M Q := gets clock.

(** [time.sleep d]; the program only ever sleeps a positive duration. *)
Definition time_sleep (d : Q) : M unit :=
  modify (fun w => emit (ESleep d) (set_clock (clock w + d)%Q w)).

(** ** [config_manager.py] *)

(** A Python [float]: a finite value, an infinity or a NaN. *)
Inductive pyfloat : Type :=
| Finite (q : Q)
| PosInf
| NegInf
| NaN.

(** [f <= n] and [f > n] for a float [f] and an integer [n]; every
    comparison with a NaN is false. *)
Definition float_le_int (f : pyfloat) (n : Z) : bool :=
  match f with
  | Finite q => Qle_bool q (inject_Z n)
  | PosInf => false
  | NegInf => true
  | NaN => false
  end.

Definition float_gt_int (f : pyfloat) (n : Z) : bool :=
  match f with
  | Finite q => negb (Qle_bool q (inject_Z n))
  | PosInf => true
  | NegInf => false
  | NaN => false
  end.

(** Values of a loaded YAML document: null, booleans, integers, strings,
    mappings, floats and sequences. *)
Inductive value : Type :=
| VNone
| VBool (b : bool)
| VInt (n : Z)
| VStr (s : string)
| VDict (d : list (string * value))
| VFloat (f : pyfloat)
| VList (l : list value).

(** A [dict] keeps its items in insertion order. *)
Definition dict := list (string * value).

Definition keys (d : dict) : list string := map fst d.

(** [d.get(key)] *)
Fixpoint dict_get (key : string) (d : dict) : option value :=
  match d with
  | [] => None
  | (k, v) :: r => if String.eqb key k then Some v else dict_get key r
  end.

(** [d[key] = v]: overwrite in place, or add at the end. *)
Fixpoint dict_set (key : string) (v : value) (d : dict) : dict :=
  match d with
  | [] => [(key, v)]
  | (k, v') :: r =>
      if String.eqb key k then (k, v) :: r else (k, v') :: dict_set key v r
  end.

(** [d.get(key, default)] *)
Definition dict_get_default (key : string) (default : value) (d : dict) : value :=
  match dict_get key d with
  | Some v => v
  | None => default
  end.

(** [v.get(key, default)] on an arbitrary value: only mappings have [get]. *)
Definition value_get (v : value) (key : string) (default : value) : res value :=
  match v with
  | VDict d => Ok (dict_get_default key default d)
  | _ => Raise AttributeError
  end.

(** Truth value of a Python object. *)
Definition truthy (v : value) : bool :=
  match v with
  | VNone => false
  | VBool b => b
  | VInt n => negb (n =? 0)
  | VStr s => negb (String.eqb s EmptyString)
  | VDict d => match d with [] => false | _ :: _ => true end
  | VFloat (Finite q) => negb (Qeq_bool q 0)
  | VFloat _ => true
  | VList l => match l with [] => false | _ :: _ => true end
  end.

Definition DEFAULT_CONFIG : dict :=
  [ ("gemini"%string,
      VDict [ ("api_key"%string, VStr ""%string);
              ("model"%string, VStr "gemini-2.0-flash-exp"%string);
              ("max_retries"%string, VInt 3);
              ("timeout"%string, VInt 10) ]);
    ("hotkeys"%string,
      VDict [ ("grammar_fix"%string, VStr "cmd+shift+g"%string);
              ("formal"%string, VStr "cmd+shift+f"%string);
              ("casual"%string, VStr "cmd+shift+c"%string);
              ("simplify"%string, VStr "cmd+shift+s"%string);
              ("expand"%string, VStr "cmd+shift+e"%string) ]);
    ("rate_limit"%string,
      VDict [ ("requests_per_minute"%string, VInt 50) ]);
    ("ui"%string,
      VDict [ ("show_notifications"%string, VBool true);
              ("notification_duration"%string, VInt 2) ]);
    ("logging"%string,
      VDict [ ("level"%string, VStr "INFO"%string);
              ("file"%string, VStr "writing_assistant.log"%string) ]) ].

(** One pass of the loop [for key, value in config.items()] of
    [_merge_with_defaults], with the recursive call as a parameter. *)
Fixpoint merge_items (rec : dict -> dict -> dict)
         (items : list (string * value)) (result : dict) : dict :=
  match items with
  | [] => result
  | (key, v) :: rest =>
      merge_items rec rest
        (match v with
         | VDict vd =>
             match dict_get key result with
             | Some (VDict rd) => dict_set key (VDict (rec vd rd)) result
             | _ => dict_set key v result
             end
         | _ => dict_set key v result
         end)
  end.

(** The recursion of [_merge_with_defaults] descends into the values of
    the user's document, so it is written on the value holding the
    mapping. *)
Fixpoint merge_value (v : value) (defaults : dict) {struct v} : dict :=
  match v with
  | VDict config =>
      (fix loop (items : list (string * value)) (result : dict) {struct items} : dict :=
         match items with
         | [] => result
         | (key, v') :: rest =>
             loop rest
               (match v' with
                | VDict _ =>
                    match dict_get key result with
                    | Some (VDict rd) =>
                        dict_set key (VDict (merge_value v' rd)) result
                    | _ => dict_set key v' result
                    end
                | _ => dict_set key v' result
                end)
         end) config defaults
  | _ => defaults
  end.

(** [ConfigManager._merge_with_defaults]: start from a copy of the
    defaults and visit the items of [config] in order; a key whose value
    is a mapping on both sides is merged recursively, any other key is
    overwritten.  [merge_with_defaults_eq] below gives the equation of
    the source. *)
Definition _merge_with_defaults (config : dict) (defaults : dict) : dict :=
  merge_value (VDict config) defaults.

Definition PLACEHOLDER_API_KEY : string := "YOUR_GEMINI_API_KEY_HERE".

(** [api_key == 'YOUR_GEMINI_API_KEY_HERE'] *)
Definition is_placeholder (v : value) : bool :=
  match v with
  | VStr s => String.eqb s PLACEHOLDER_API_KEY
  | _ => false
  end.

(** [rpm <= 0 or rpm > 60]; comparing a non-number with an integer raises
    [TypeError], and [bool] is a subclass of [int]. *)
Definition rpm_out_of_range (rpm : value) : res bool :=
  match rpm with
  | VInt n => Ok ((n <=? 0) || (60 <? n))
  | VBool b => let n := if b then 1 else 0 in Ok ((n <=? 0) || (60 <? n))
  | VFloat f => Ok (float_le_int f 0 || float_gt_int f 60)
  | _ => Raise TypeError
  end.

(** [ConfigManager._validate] on the merged configuration. *)
Definition _validate (config : dict) : res unit :=
  match value_get (dict_get_default "gemini" (VDict []) config) "api_key" (VStr "") with
  | Raise e => Raise e
  | Ok api_key =>
      if negb (truthy api_key) || is_placeholder api_key then Raise ValueError
      else
        match value_get (dict_get_default "rate_limit" (VDict []) config)
                        "requests_per_minute" (VInt 0) with
        | Raise e => Raise e
        | Ok rpm =>
            match rpm_out_of_range rpm with
            | Raise e => Raise e
            | Ok true => Raise ValueError
            | Ok false => Ok tt
            end
        end
  end.

(** [ConfigManager.should_show_notifications] *)
Definition should_show_notifications (config : dict) : res value :=
  value_get (dict_get_default "ui" (VDict []) config) "show_notifications" (VBool true).

(** [ConfigManager.get_notification_duration] *)
Definition get_notification_duration (config : dict) : res value :=
  value_get (dict_get_default "ui" (VDict []) config) "notification_duration" (VInt 2).

(** Run a pure, possibly raising computation inside the monad. *)
Definition lift {A} (r : res A) : M A := fun w => (r, w).

(** ** [gemini_client.py] *)

(** The prompt templates.  Every template ends with its single
    substitution point [{text}]; the table holds the part before it. *)
Definition PROMPTS : list (string * string) :=
  [ ("grammar_fix",
     "Fix any grammar, spelling, and punctuation errors in the following text.
Maintain the original tone and style. Only return the corrected text, nothing else.

Text: ");
    ("formal",
     "Rewrite the following text in a more formal and professional style.
Maintain the core message. Only return the rewritten text, nothing else.

Text: ");
    ("casual",
     "Rewrite the following text in a more casual and friendly style.
Maintain the core message. Only return the rewritten text, nothing else.

Text: ");
    ("simplify",
     "Simplify the following text to make it clearer and easier to understand.
Use simpler words and shorter sentences. Only return the simplified text, nothing else.

Text: ");
    ("expand",
     "Expand and elaborate on the following text with more detail and context.
Maintain the original style. Only return the expanded text, nothing else.

Text: ") ]%string.

(** [PROMPTS.get(mode)] *)
Fixpoint prompt_template (mode : string) (table : list (string * string)) : option string :=
  match table with
  | [] => None
  | (k, t) :: r => if String.eqb mode k then Some t else prompt_template mode r
  end.

(** [PROMPTS[mode].format(text=text)] *)
Definition format_prompt (template : string) (text : pystr) : pystr :=
  pystr_of_string template ++ text.

(** The fields of a client that the rate limiter and the retry loop read.
    [__init__] creates the record of timestamps as
    [deque(maxlen=requests_per_minute)], empty. *)
Record GeminiClient : Type := mkClient {
  requests_per_minute : Z;
  max_retries : Z
}.

(** The loop [while request_times and now - request_times[0] > 60:
    request_times.popleft()]. *)
Fixpoint discard_old (now : Q) (times : list Q) : list Q :=
  match times with
  | [] => []
  | t :: rest =>
      if Qlt_le_dec 60 (now - t) then discard_old now rest else times
  end.

(** [deque.append] on a deque created with [maxlen]: the oldest entries
    fall off the left end. *)
Definition deque_append (maxlen : Z) (x : Q) (times : list Q) : list Q :=
  let l := times ++ [x] in
  skipn (List.length l - Z.to_nat maxlen)%nat l.

(** [request_times[0]] *)
Definition deque_front : M Q :=
  fun w =>
    match request_times w with
    | [] => (Raise IndexError, w)
    | t :: _ => (Ok t, w)
    end.

(** [GeminiClient._check_rate_limit] *)
Definition _check_rate_limit (c : GeminiClient) : M unit :=
  now <- time_time ;;
  modify (fun w => set_request_times (discard_old now (request_times w)) w) ;;;
  times <- gets request_times ;;
  (if requests_per_minute c <=? Z.of_nat (List.length times) then
     oldest <- deque_front ;;
     let wait_time := (60 - (now - oldest))%Q in
     if Qlt_le_dec 0 wait_time then time_sleep wait_time else ret tt
   else ret tt) ;;;
  stamp <- time_time ;;
  modify (fun w =>
            set_request_times
              (deque_append (requests_per_minute c) stamp (request_times w)) w).

(** [range(n)] *)
Definition py_range (n : Z) : list Z := map Z.of_nat (seq 0 (Z.to_nat n)).

Section Environment.

Variable env : Env.

(** [self.model.generate_content(prompt, ...)] followed by the read of
    [response.text]. *)
Definition generate_content (prompt : pystr) : M pystr :=
  fun w =>
    let w' := incr_api_calls (emit (EGenerate prompt) w) in
    match provider env (api_calls w) with
    | Raises => (Raise ProviderError, w')
    | Responds text => (Ok text, w')
    end.

(** The body of the retry loop for one value of [attempt].  [Some t]
    stands for [return t] out of the loop, [None] for falling through to
    the next iteration. *)
Definition attempt_once (c : GeminiClient) (prompt : pystr) (attempt : Z)
  : M (option pystr) :=
  try_except
    (text <- generate_content prompt ;;
     if str_truthy text then ret (Some (strip text)) else ret None)
    (fun _ =>
       (if attempt <? max_retries c - 1
        then time_sleep (inject_Z (2 ^ attempt))
        else ret tt) ;;;
       ret None).

(** [for attempt in range(self.max_retries): ...] followed by
    [return None]. *)
Fixpoint retry_loop (c : GeminiClient) (prompt : pystr) (attempts : list Z)
  : M (option pystr) :=
  match attempts with
  | [] => ret None
  | attempt :: rest =>
      r <- attempt_once c prompt attempt ;;
      match r with
      | Some improved => ret (Some improved)
      | None => retry_loop c prompt rest
      end
  end.

(** [not text or not text.strip()] *)
Definition blank_input (text : pystr) : bool :=
  negb (str_truthy text) || negb (str_truthy (strip text)).

(** [GeminiClient.improve_text] *)
Definition improve_text (c : GeminiClient) (text : pystr) (mode : string)
  : M (option pystr) :=
  if blank_input text then ret None
  else
    match prompt_template mode PROMPTS with
    | None => ret None
    | Some template =>
        _check_rate_limit c ;;;
        retry_loop c (format_prompt template text) (py_range (max_retries c))
    end.

(** ** [text_handler.py] *)

(** [self.clipboard_delay] *)
Definition clipboard_delay : Q := 1 # 10.

(** What a keystroke script that ran does to the world: Cmd+C puts the
    selection, if any, on the clipboard; Cmd+V hands the clipboard to the
    focused window. *)
Definition script_effect (s : script) (w : World) : World :=
  match s with
  | KeystrokeCopy =>
      match selection env with
      | Some t => set_clipboard (Some t) w
      | None => w
      end
  | KeystrokePaste => emit (EPasted (clipboard w)) w
  | DisplayNotification _ _ => w
  end.

(** [TextHandler._execute_applescript]: a failed or timed-out run is
    reported as [None] and never raises. *)
Definition _execute_applescript (s : script) : M (option pystr) :=
  fun w =>
    let ok := osascript_ok env (scripts_run w) in
    let w' := incr_scripts_run (emit (EScript s ok) w) in
    if ok then (Ok (Some []), script_effect s w') else (Ok None, w').

(** [pasteboard.stringForType_(NSPasteboardTypeString)] *)
Definition pasteboard_string : M (option pystr) := gets clipboard.

(** [pasteboard.clearContents()] followed by
    [pasteboard.setString_forType_(s, NSPasteboardTypeString)] *)
Definition pasteboard_replace (s : pystr) : M unit :=
  modify (set_clipboard None) ;;;
  modify (set_clipboard (Some s)).

(** [TextHandler.get_selected_text] *)
Definition get_selected_text : M (option pystr) :=
  try_except
    (old_clipboard <- pasteboard_string ;;
     _execute_applescript KeystrokeCopy ;;;
     time_sleep clipboard_delay ;;;
     new_clipboard <- pasteboard_string ;;
     match old_clipboard with
     | Some old => if str_truthy old then pasteboard_replace old else ret tt
     | None => ret tt
     end ;;;
     match new_clipboard with
     | Some new =>
         if str_truthy new && str_truthy (strip new)
         then ret (Some new) else ret None
     | None => ret None
     end)
    (fun _ => ret None).

(** [TextHandler.replace_selected_text] *)
Definition replace_selected_text (new_text : pystr) : M bool :=
  try_except
    (if negb (str_truthy new_text) then ret false
     else
       old_clipboard <- pasteboard_string ;;
       pasteboard_replace new_text ;;;
       time_sleep clipboard_delay ;;;
       _execute_applescript KeystrokePaste ;;;
       time_sleep clipboard_delay ;;;
       match old_clipboard with
       | Some old => if str_truthy old then pasteboard_replace old else ret tt
       | None => ret tt
       end ;;;
       ret true)
    (fun _ => ret false).

(** [TextHandler.show_notification] *)
Definition show_notification (title message : string) : M unit :=
  try_except
    (_execute_applescript (DisplayNotification title message) ;;; ret tt)
    (fun _ => ret tt).

(** ** [main.py] *)

(** [self.processing_lock.acquire(blocking=False)] *)
Definition lock_acquire_nonblocking : M bool :=
  fun w =>
    if lock_held w then (Ok false, w) else (Ok true, set_lock_held true w).

(** [self.processing_lock.release()] *)
Definition lock_release (w : World) : World := set_lock_held false w.

(** [if self.config_manager.should_show_notifications():
       self.text_handler.show_notification("Writing Assistant", message, ...)] *)
Definition notify (config : dict) (message : string) : M unit :=
  show <- lift (should_show_notifications config) ;;
  if truthy show then show_notification "Writing Assistant" message else ret tt.

(** The [try] block of [handle_hotkey]. *)
Definition hotkey_body (config : dict) (c : GeminiClient) (mode : string) : M unit :=
  notify config ("Processing (" ++ mode ++ ")...") ;;;
  selected_text <- get_selected_text ;;
  match selected_text with
  | Some text =>
      if str_truthy text then
        improved_text <- improve_text c text mode ;;
        if opt_truthy improved_text then
          success <- replace_selected_text
                       (match improved_text with Some t => t | None => [] end) ;;
          if success : bool then
            show <- lift (should_show_notifications config) ;;
            if truthy show then
              lift (get_notification_duration config) ;;;
              show_notification "Writing Assistant" ("Text improved (" ++ mode ++ ")")
            else ret tt
          else notify config "Failed to replace text"
        else notify config "Failed to improve text"
      else notify config "No text selected"
  | None => notify config "No text selected"
  end.

(** The part of [handle_hotkey] that runs with the lock held:
    [try: ... except Exception: ... finally: release]. *)
Definition process_request (config : dict) (c : GeminiClient) (mode : string) : M unit :=
  try_finally
    (try_except (hotkey_body config c mode)
                (fun _ => notify config "An error occurred"))
    lock_release.

(** [WritingAssistant.handle_hotkey] *)
Definition handle_hotkey (config : dict) (c : GeminiClient) (mode : string) : M unit :=
  acquired <- lock_acquire_nonblocking ;;
  if acquired : bool then process_request config c mode else ret tt.

(** *** The callback, one stage at a time

    The listener thread runs the callbacks of several triggers; between
    two stages of one callback, another may run.  A callback is at one of
    the following points; [thread_step] runs it to the next one. *)

(** The notification that ends the [try] block. *)
Inductive report : Type :=
| NoTextSelected
| TextImproved
| FailedToReplace
| FailedToImprove.

Inductive pc : Type :=
| AtAcquire                       (* before [processing_lock.acquire] *)
| AtProcessing                    (* lock taken, first statement of [try] *)
| AtCapture                       (* before [get_selected_text] *)
| AtImprove (text : pystr)        (* before [improve_text] *)
| AtReplace (improved : pystr)    (* before [replace_selected_text] *)
| AtReport (what : report)        (* before the last notification *)
| AtExcept                        (* in the [except] block *)
| AtFinally (outcome : res unit)  (* in the [finally] block *)
| AtDone (outcome : res unit).    (* the callback has returned or raised *)

Definition report_action (config : dict) (mode : string) (what : report) : M unit :=
  match what with
  | NoTextSelected => notify config "No text selected"
  | TextImproved =>
      show <- lift (should_show_notifications config) ;;
      if truthy show then
        lift (get_notification_duration config) ;;;
        show_notification "Writing Assistant" ("Text improved (" ++ mode ++ ")")
      else ret tt
  | FailedToReplace => notify config "Failed to replace text"
  | FailedToImprove => notify config "Failed to improve text"
  end.

(** One stage inside the [try] block: on an exception control goes to
    the [except] block. *)
Definition stage {A} (m : M A) (next : A -> pc) (w : World) : pc * World :=
  match m w with
  | (Ok a, w') => (next a, w')
  | (Raise _, w') => (AtExcept, w')
  end.

Definition thread_step (config : dict) (c : GeminiClient) (mode : string)
           (p : pc) (w : World) : pc * World :=
  match p with
  | AtAcquire =>
      match lock_acquire_nonblocking w with
      | (Ok true, w') => (AtProcessing, w')
      | (Ok false, w') => (AtDone (Ok tt), w')
      | (Raise e, w') => (AtDone (Raise e), w')
      end
  | AtProcessing =>
      stage (notify config ("Processing (" ++ mode ++ ")...")) (fun _ => AtCapture) w
  | AtCapture =>
      stage get_selected_text
            (fun selected_text =>
               match selected_text with
               | Some text =>
                   if str_truthy text then AtImprove text else AtReport NoTextSelected
               | None => AtReport NoTextSelected
               end) w
  | AtImprove text =>
      stage (improve_text c text mode)
            (fun improved_text =>
               match improved_text with
               | Some t => if str_truthy t then AtReplace t else AtReport FailedToImprove
               | None => AtReport FailedToImprove
               end) w
  | AtReplace improved =>
      stage (replace_selected_text improved)
            (fun success : bool =>
               if success then AtReport TextImproved else AtReport FailedToReplace) w
  | AtReport what =>
      stage (report_action config mode what) (fun _ => AtFinally (Ok tt)) w
  | AtExcept =>
      let (outcome, w') := notify config "An error occurred" w in
      (AtFinally outcome, w')
  | AtFinally outcome => (AtDone outcome, lock_release w)
  | AtDone outcome => (AtDone outcome, w)
  end.

(** Run a callback alone, for at most [fuel] stages. *)
Fixpoint run_thread (config : dict) (c : GeminiClient) (fuel : nat) (mode : string)
         (p : pc) (w : World) : pc * World :=
  match fuel with
  | O => (p, w)
  | S fuel' =>
      match p with
      | AtDone _ => (p, w)
      | _ =>
          let (p', w') := thread_step config c mode p w in
          run_thread config c fuel' mode p' w'
      end
  end.

(** The world shared by the callbacks, and the callbacks the listener has
    started, each with its mode and the point it is at. *)
Record Threads : Type := mkThreads {
  shared : World;
  pool : list (string * pc)
}.

(** A trigger starts a callback; any callback may run one stage. *)
Inductive tstep (config : dict) (c : GeminiClient) : Threads -> Threads -> Prop :=
| tstep_trigger (mode : string) (s : Threads) :
    tstep config c s (mkThreads (shared s) (pool s ++ [(mode, AtAcquire)]))
| tstep_run (mode : string) (p p' : pc) (before after : list (string * pc))
            (s : Threads) (w' : World) :
    pool s = before ++ (mode, p) :: after ->
    thread_step config c mode p (shared s) = (p', w') ->
    tstep config c s (mkThreads w' (before ++ (mode, p') :: after)).

Inductive treachable (config : dict) (c : GeminiClient) : Threads -> Prop :=
| treachable_idle (w : World) :
    lock_held w = false -> treachable config c (mkThreads w [])
| treachable_step (s s' : Threads) :
    treachable config c s -> tstep config c s s' -> treachable config c s'.

End Environment.

(** ** Calls of the rate limiter over time

    [run_limiter] lets the clock advance by a gap before each call of
    [_check_rate_limit]; whatever happens between two calls (provider
    latency, retries, idle time) is such a gap. *)
Fixpoint run_limiter (c : GeminiClient) (gaps : list Q) (w : World) : res unit * World :=
  match gaps with
  | [] => (Ok tt, w)
  | gap :: rest =>
      match _check_rate_limit c (set_clock (clock w + gap)%Q w) with
      | (Ok _, w') => run_limiter c rest w'
      | (Raise e, w') => (Raise e, w')
      end
  end.

(** The timestamps at which requests were let through: each call that
    returns appends the clock value it returns at to the record. *)
Fixpoint issued (c : GeminiClient) (gaps : list Q) (w : World) : list Q :=
  match gaps with
  | [] => []
  | gap :: rest =>
      match _check_rate_limit c (set_clock (clock w + gap)%Q w) with
      | (Ok _, w') => clock w' :: issued c rest w'
      | (Raise _, _) => []
      end
  end.

(** Number of timestamps in the half-open window [(T - 60, T]]. *)
Fixpoint in_window (T : Q) (stamps : list Q) : nat :=
  match stamps with
  | [] => 0%nat
  | t :: rest =>
      if Qlt_le_dec (T - 60) t
      then (if Qlt_le_dec T t then in_window T rest else S (in_window T rest))
      else in_window T rest
  end.

(** ** Notions used in the statements *)

(** The computation ended with an exception. *)
Definition raises {A} (r : res A) : Prop := exists e, r = Raise e.

(** The value the loop stores under [key] when it meets the item
    [(key, v)] and the result so far holds [current] there. *)
Definition merged_entry (rec : dict -> dict -> dict)
           (v : value) (current : option value) : value :=
  match v, current with
  | VDict vd, Some (VDict rd) => VDict (rec vd rd)
  | _, _ => v
  end.

(** The wait the limiter imposes in world [w], if any. *)
Definition limiter_wait (c : GeminiClient) (w : World) : option Q :=
  let times := discard_old (clock w) (request_times w) in
  if requests_per_minute c <=? Z.of_nat (List.length times) then
    match times with
    | [] => None
    | oldest :: _ =>
        if Qlt_le_dec 0 (60 - (clock w - oldest)) then Some (60 - (clock w - oldest))%Q
        else None
    end
  else None.

(** The world after a call that waits [d] ([None]: no wait). *)
Definition limiter_world (c : GeminiClient) (w : World) (d : option Q) : World :=
  let times := discard_old (clock w) (request_times w) in
  match d with
  | Some d =>
      mkWorld (clock w + d) (trace w ++ [ESleep d]) (api_calls w) (scripts_run w)
              (clipboard w)
              (deque_append (requests_per_minute c) (clock w + d) times)
              (lock_held w)
  | None =>
      mkWorld (clock w) (trace w) (api_calls w) (scripts_run w) (clipboard w)
              (deque_append (requests_per_minute c) (clock w) times)
              (lock_held w)
  end.

(** The world after one provider call. *)
Definition called (prompt : pystr) (w : World) : World :=
  incr_api_calls (emit (EGenerate prompt) w).

(** The world after [time.sleep d]. *)
Definition slept (d : Q) (w : World) : World :=
  emit (ESleep d) (set_clock (clock w + d)%Q w).

(** The back-off the [except] branch applies at [attempt]. *)
Definition backoff (c : GeminiClient) (attempt : Z) (w : World) : World :=
  if attempt <? max_retries c - 1 then slept (inject_Z (2 ^ attempt)) w else w.

(** Durations of the sleeps among some events, in order. *)
Fixpoint delays (evs : list event) : list Q :=
  match evs with
  | [] => []
  | ESleep d :: r => d :: delays r
  | _ :: r => delays r
  end.

(** Number of provider calls among some events. *)
Fixpoint provider_calls (evs : list event) : nat :=
  match evs with
  | [] => 0%nat
  | EGenerate _ :: r => S (provider_calls r)
  | _ :: r => provider_calls r
  end.

Definition Qsum (l : list Q) : Q := fold_right Qplus 0%Q l.

(** A reply that makes the loop go on: an exception or an empty text. *)
Definition failing (r : reply) : Prop := r = Raises \/ r = Responds [].

(** The world after [n] attempts, numbered from [a], that all raised. *)
Fixpoint after_raises (c : GeminiClient) (prompt : pystr) (a n : nat) (w : World) : World :=
  match n with
  | O => w
  | S n' => after_raises c prompt (S a) n' (backoff c (Z.of_nat a) (called prompt w))
  end.

(** The events of [n] raising attempts numbered from [a], none of them
    the last attempt of the loop. *)
Definition raising_events (prompt : pystr) (a n : nat) : list event :=
  flat_map (fun i => [EGenerate prompt; ESleep (inject_Z (2 ^ Z.of_nat i))]) (seq a n).

(** The world after [n] attempts that all got an empty response. *)
Fixpoint after_empties (prompt : pystr) (n : nat) (w : World) : World :=
  match n with
  | O => w
  | S n' => after_empties prompt n' (called prompt w)
  end.

(** A computation that leaves the lock as it found it. *)
Definition keeps_lock {A} (m : M A) : Prop :=
  forall w, lock_held (snd (m w)) = lock_held w.

(** What holds between two calls of the limiter: [log] lists every
    timestamp issued so far, oldest first. *)
Record limiter_inv (c : GeminiClient) (w : World) (log : list Q) : Prop := {
  inv_split : exists old,
      log = old ++ request_times w /\
      Forall (fun t => t + 60 <= clock w)%Q old;
  inv_bounded : Z.of_nat (List.length (request_times w)) <= requests_per_minute c;
  inv_quota : forall T, Z.of_nat (in_window T log) <= requests_per_minute c
}.

(** ** [config_manager.py]: loading and the accessors *)

(** [ConfigManager.get]: follow the keys of [path] down the stored
    configuration [v]; [default] as soon as a key is missing or the value
    at hand is not a mapping. *)
Fixpoint config_get (path : list string) (default : value) (v : value) : value :=
  match path with
  | [] => v
  | key :: rest =>
      match v with
      | VDict d =>
          match dict_get key d with
          | Some v' => config_get rest default v'
          | None => default
          end
      | _ => default
      end
  end.

(** [ConfigManager.get_rate_limit] *)
Definition get_rate_limit (config : dict) : res value :=
  value_get (dict_get_default "rate_limit" (VDict []) config)
            "requests_per_minute" (VInt 50).

(** [ConfigManager.get_gemini_config] *)
Definition get_gemini_config (config : dict) : value :=
  dict_get_default "gemini" (VDict []) config.

(** [ConfigManager.get_hotkeys] *)
Definition get_hotkeys (config : dict) : value :=
  dict_get_default "hotkeys" (VDict []) config.

(** What [load] finds at [config_path]: no file, a file that cannot be
    read or parsed, or a parsed YAML document. *)
Inductive config_file : Type :=
| FileMissing
| FileUnreadable
| FileDocument (doc : value).

(** The two exceptions [load] lets out. *)
Inductive load_error : Type :=
| FileNotFoundError
| LoadValueError.

(** [self._merge_with_defaults(self.config, self.DEFAULT_CONFIG)] on
    whatever [yaml.safe_load] returned: only a mapping has [items]. *)
Definition merge_document (doc : value) (defaults : dict) : res dict :=
  match doc with
  | VDict config => Ok (_merge_with_defaults config defaults)
  | _ => Raise AttributeError
  end.

(** [ConfigManager.load]: the result, and [self.config] afterwards. *)
Definition load (file : config_file) (self_config : value)
  : (load_error + dict) * value :=
  match file with
  | FileMissing => (inl FileNotFoundError, self_config)
  | FileUnreadable => (inl LoadValueError, self_config)
  | FileDocument doc =>
      match merge_document doc DEFAULT_CONFIG with
      | Raise _ => (inl LoadValueError, doc)
      | Ok merged =>
          match _validate merged with
          | Raise _ => (inl LoadValueError, VDict merged)
          | Ok _ => (inr merged, VDict merged)
          end
      end
  end.

(** A document in which no mapping, at any depth, repeats a key. *)
Fixpoint wf_value (v : value) : Prop :=
  match v with
  | VDict d =>
      NoDup (keys d) /\
      (fix all (items : list (string * value)) : Prop :=
         match items with
         | [] => True
         | (_, v') :: rest => wf_value v' /\ all rest
         end) d
  | _ => True
  end.

(** The value found by following [path] down the mappings, if any. *)
Fixpoint config_find (path : list string) (v : value) : option value :=
  match path with
  | [] => Some v
  | key :: rest =>
      match v with
      | VDict d =>
          match dict_get key d with
          | Some v' => config_find rest v'
          | None => None
          end
      | _ => None
      end
  end.

(** The document says something about [path]: it holds the whole path, or
    a value that is not a mapping somewhere along it. *)
Fixpoint mentions (path : list string) (v : value) : bool :=
  match path with
  | [] => true
  | key :: rest =>
      match v with
      | VDict d =>
          match dict_get key d with
          | Some v' => mentions rest v'
          | None => false
          end
      | _ => true
      end
  end.

Definition is_dict (v : value) : bool :=
  match v with VDict _ => true | _ => false end.

(** ** Notions used in the further properties *)

(** An event of the retry loop run with [prompt]: a provider call with
    that prompt, or a sleep. *)
Definition retry_event (prompt : pystr) (e : event) : Prop :=
  e = EGenerate prompt \/ exists d, e = ESleep d.

(** The clipboard once the copy keystroke has been tried in world [w]:
    the selection if the script ran and something was selected, otherwise
    what the clipboard held. *)
Definition post_copy (env : Env) (w : World) : option pystr :=
  if osascript_ok env (scripts_run w) then
    match selection env with
    | Some t => Some t
    | None => clipboard w
    end
  else clipboard w.

(** A text that is not blank, wrapped in [Some]; [None] otherwise. *)
Definition non_blank (o : option pystr) : option pystr :=
  match o with
  | Some s => if str_truthy s && str_truthy (strip s) then Some s else None
  | None => None
  end.

(** The contents handed to the focused window by paste keystrokes. *)
Fixpoint pasted (evs : list event) : list (option pystr) :=
  match evs with
  | [] => []
  | EPasted content :: r => content :: pasted r
  | _ :: r => pasted r
  end.

(** A computation that leaves the observation [f] of the world as it
    found it, whether it returns or raises. *)
Definition keeps {X A} (f : World -> X) (m : M A) : Prop :=
  forall w, f (snd (m w)) = f w.

(** What has been pasted so far. *)
Definition pasted_so_far (w : World) : list (option pystr) := pasted (trace w).

(** Between [w] and [w'] nothing was pasted, or one thing: the stripped,
    non-empty text of a reply of the provider. *)
Definition pasted_a_reply (env : Env) (w w' : World) : Prop :=
  pasted_so_far w' = pasted_so_far w \/
  exists i answer,
    provider env i = Responds answer /\
    strip answer <> [] /\
    pasted_so_far w' = pasted_so_far w ++ [Some (strip answer)].

(** The [ui] section of the configuration is a mapping (or is absent). *)
Definition ui_is_mapping (config : dict) : bool :=
  is_dict (dict_get_default "ui" (VDict []) config).

(** What a request may change besides the trace, the clock and the
    script counter: the provider calls made, the record of the limiter,
    the clipboard, and what has been pasted. *)
Definition footprint (w : World)
  : nat * list Q * option pystr * list (option pystr) :=
  (api_calls w, request_times w, clipboard w, pasted_so_far w).

(** The times of the provider calls among some events, for a clock that
    shows [now] at the first of them and is advanced by the sleeps. *)
Fixpoint call_times (now : Q) (evs : list event) : list Q :=
  match evs with
  | [] => []
  | ESleep d :: r => call_times (now + d)%Q r
  | EGenerate _ :: r => now :: call_times now r
  | _ :: r => call_times now r
  end.

(** A callback is in flight from the moment it has taken the lock until
    its [finally] clause has run. *)
Definition in_flight (p : pc) : bool :=
  match p with
  | AtAcquire | AtDone _ => false
  | _ => true
  end.

(** Number of callbacks in flight. *)
Definition running (threads : list (string * pc)) : nat :=
  List.length (filter (fun t => in_flight (snd t)) threads).

(** How a callback ends once its [try] and [except] blocks have given
    [x]: the [finally] clause releases the lock. *)
Definition finish (x : res unit * World) : pc * World :=
  (AtDone (fst x), lock_release (snd x)).

(** * Properties *)

(** ** Strings *)

Lemma lstrip_incl (s : pystr) (c : codepoint) : In c (lstrip s) -> In c s.
Proof.
  induction s as [|a r IH]; simpl; auto.
  destruct (py_isspace a); simpl; auto.
Qed.

Lemma lstrip_nonempty (s : pystr) :
  str_truthy (lstrip s) = true -> exists c, In c s /\ py_isspace c = false.
Proof.
  induction s as [|a r IH]; simpl; [discriminate|].
  destruct (py_isspace a) eqn:Ha; intros H.
  - destruct (IH H) as (c & Hin & Hc). exists c; auto.
  - exists a; auto.
Qed.

Lemma str_truthy_rev (s : pystr) : str_truthy (rev s) = str_truthy s.
Proof.
  destruct s as [|a r]; simpl; auto.
  destruct (rev r); reflexivity.
Qed.

Lemma strip_nonempty (s : pystr) :
  str_truthy (strip s) = true -> exists c, In c s /\ py_isspace c = false.
Proof.
  unfold strip, rstrip. rewrite str_truthy_rev. intros H.
  destruct (lstrip_nonempty _ H) as (c & Hin & Hc).
  exists c. split; auto.
  apply lstrip_incl. now apply in_rev.
Qed.

Lemma lstrip_all_space (s : pystr) :
  Forall (fun c => py_isspace c = true) s -> lstrip s = [].
Proof.
  induction 1 as [|a r Ha _ IH]; simpl; auto. now rewrite Ha.
Qed.

Lemma strip_all_space (s : pystr) :
  Forall (fun c => py_isspace c = true) s -> strip s = [].
Proof.
  intros H. unfold strip. now rewrite (lstrip_all_space s H).
Qed.

(** ** The monad *)

Ltac run :=
  repeat (unfold bind, ret, raise, lift, gets, modify, try_except,
            try_finally, time_time, time_sleep, pasteboard_string,
            pasteboard_replace in *; simpl in * ).

(** ** [GeminiClient.improve_text]: rejected input *)

Lemma prompt_template_unknown (mode : string) (table : list (string * string)) :
  ~ In mode (map fst table) -> prompt_template mode table = None.
Proof.
  induction table as [|[k t] r IH]; simpl; auto.
  intros H. destruct (String.eqb mode k) eqn:E.
  - apply String.eqb_eq in E. subst. tauto.
  - apply IH. tauto.
Qed.

Lemma prompt_template_known (mode : string) (table : list (string * string)) :
  In mode (map fst table) -> exists t, prompt_template mode table = Some t.
Proof.
  induction table as [|[k t] r IH]; simpl; [tauto|].
  intros H. destruct (String.eqb mode k) eqn:E; eauto.
  apply IH. destruct H as [H|H]; auto.
  subst. rewrite String.eqb_refl in E. discriminate.
Qed.

Lemma blank_input_all_space (text : pystr) :
  Forall (fun ch => py_isspace ch = true) text -> blank_input text = true.
Proof.
  intros H. unfold blank_input. rewrite (strip_all_space text H).
  simpl. apply orb_true_r.
Qed.

(** C6.  A text that is empty or made of whitespace only, or a mode that
    is not one of the five known modes, makes [improve_text] return [None]
    at once: the world is left exactly as it was, so no provider call was
    made, nothing was slept and the record of request timestamps is
    untouched. *)
Theorem improve_text_rejects_without_effect
        (env : Env) (c : GeminiClient) (text : pystr) (mode : string) (w : World) :
  text = [] \/
  Forall (fun ch => py_isspace ch = true) text \/
  ~ In mode ["grammar_fix"; "formal"; "casual"; "simplify"; "expand"]%string ->
  improve_text env c text mode w = (Ok None, w) /\
  api_calls (snd (improve_text env c text mode w)) = api_calls w /\
  trace (snd (improve_text env c text mode w)) = trace w /\
  request_times (snd (improve_text env c text mode w)) = request_times w.
Proof.
  intros H.
  assert (E : improve_text env c text mode w = (Ok None, w)).
  { unfold improve_text.
    destruct H as [H | [H | H]].
    - subst. reflexivity.
    - now rewrite (blank_input_all_space text H).
    - destruct (blank_input text); [reflexivity|].
      now rewrite (prompt_template_unknown mode PROMPTS H). }
  rewrite E. auto.
Qed.

Lemma improve_text_rejects_without_effect_witness :
  let env := mkEnv (fun _ => Responds [104; 105]%N) (fun _ => true) None in
  let w := mkWorld 100 [] 0 0 None [40; 70]%Q false in
  improve_text env (mkClient 2 3) [32; 9; 10]%N "grammar_fix" w = (Ok None, w) /\
  improve_text env (mkClient 2 3) [104; 105]%N "poetic" w = (Ok None, w).
Proof.
  split.
  - apply (improve_text_rejects_without_effect _ (mkClient 2 3) [32; 9; 10]%N "grammar_fix").
    right; left. repeat constructor.
  - apply (improve_text_rejects_without_effect _ (mkClient 2 3) [104; 105]%N "poetic").
    right; right. simpl. intros H.
    repeat (destruct H as [H|H]; [discriminate|]). exact H.
Defined.

(** ** [TextHandler.get_selected_text] *)

Ltac case_split :=
  match goal with
  | |- context [match ?x with _ => _ end] => destruct x eqn:?
  | |- context [if ?x then _ else _] => destruct x eqn:?
  | H : context [match ?x with _ => _ end] |- _ => destruct x eqn:?
  | H : context [if ?x then _ else _] |- _ => destruct x eqn:?
  end.

Lemma not_blank_input (s : pystr) :
  str_truthy s = true -> str_truthy (strip s) = true -> blank_input s = false.
Proof. intros H1 H2. unfold blank_input. now rewrite H1, H2. Qed.

Lemma captured_not_blank (s : pystr) :
  (str_truthy s && str_truthy (strip s))%bool = true ->
  (exists ch, In ch s /\ py_isspace ch = false) /\ blank_input s = false.
Proof.
  intros H. apply andb_true_iff in H. destruct H as [H1 H2].
  split; [now apply strip_nonempty | now apply not_blank_input].
Qed.

(** C10.  Whatever the clipboard, the selection and the outcome of the
    copy script, [get_selected_text] does not raise, and it returns either
    [None] or a string with at least one character that is not
    whitespace; such a string passes the blank-input test at the head of
    [improve_text]. *)
Theorem get_selected_text_none_or_not_blank
        (env : Env) (w w' : World) (r : res (option pystr)) :
  get_selected_text env w = (r, w') ->
  r = Ok None \/
  exists s, r = Ok (Some s) /\
            (exists ch, In ch s /\ py_isspace ch = false) /\
            blank_input s = false.
Proof.
  unfold get_selected_text, _execute_applescript. run.
  intros H.
  repeat case_split; run;
    repeat match goal with
           | H : (_, _) = (_, _) |- _ => inversion H; clear H; subst
           end;
    first [ now left
          | right; eexists; (split; [reflexivity | now apply captured_not_blank]) ].
Qed.

Lemma get_selected_text_none_or_not_blank_witness :
  let env := mkEnv (fun _ => Raises) (fun _ => true) (Some [32; 104; 105]%N) in
  let w := mkWorld 0 [] 0 0 (Some [111; 108; 100]%N) [] true in
  fst (get_selected_text env w) = Ok None \/
  exists s, fst (get_selected_text env w) = Ok (Some s) /\
            (exists ch, In ch s /\ py_isspace ch = false) /\
            blank_input s = false.
Proof.
  intros env w.
  apply (get_selected_text_none_or_not_blank env w (snd (get_selected_text env w))).
  reflexivity.
Defined.

Example get_selected_text_blank_clipboard :
  let env := mkEnv (fun _ => Raises) (fun _ => true) (Some [32; 9; 160]%N) in
  let w := mkWorld 0 [] 0 0 (Some [111; 108; 100]%N) [] true in
  fst (get_selected_text env w) = Ok None /\
  clipboard (snd (get_selected_text env w)) = Some [111; 108; 100]%N.
Proof. vm_compute. auto. Qed.

(** ** [TextHandler.replace_selected_text] *)

(** The clipboard after the call, in every case. *)
Lemma replace_selected_text_clipboard (env : Env) (new_text : pystr) (w : World) :
  clipboard (snd (replace_selected_text env new_text w)) =
  if negb (str_truthy new_text) || opt_truthy (clipboard w)
  then clipboard w else Some new_text.
Proof.
  unfold replace_selected_text, _execute_applescript. run.
  destruct (str_truthy new_text); simpl; [|reflexivity].
  destruct (osascript_ok env (scripts_run w));
    destruct (clipboard w) as [old|]; simpl; try reflexivity;
    destruct (str_truthy old) eqn:E; simpl; try reflexivity;
    destruct old; simpl in *; try discriminate; reflexivity.
Qed.

(** C9, as the code has it.  [replace_selected_text] never raises, and
    whether the paste script ran or failed: (1) when the clipboard holds
    a non-empty string before the call, it holds the same string when
    the call returns; (2) when the clipboard holds no string, or the
    empty string, and there is a text to paste, nothing is put back and
    the clipboard is left holding the new text; (3) with no text to
    paste the call returns [False] at once and changes nothing. *)
Theorem replace_selected_text_clipboard_outcome
        (env : Env) (new_text : pystr) (w : World) :
  (exists b, fst (replace_selected_text env new_text w) = Ok b) /\
  (opt_truthy (clipboard w) = true ->
   clipboard (snd (replace_selected_text env new_text w)) = clipboard w) /\
  (opt_truthy (clipboard w) = false -> new_text <> [] ->
   clipboard (snd (replace_selected_text env new_text w)) = Some new_text) /\
  (new_text = [] -> replace_selected_text env new_text w = (Ok false, w)).
Proof.
  split; [|split; [|split]].
  - unfold replace_selected_text, _execute_applescript. run.
    repeat case_split; run; eauto.
  - intros H. rewrite replace_selected_text_clipboard.
    rewrite H. now rewrite orb_true_r.
  - intros H Hne. rewrite replace_selected_text_clipboard. rewrite H.
    destruct new_text; [congruence | reflexivity].
  - intros ->. reflexivity.
Qed.

Lemma replace_selected_text_clipboard_outcome_witness :
  let ok := mkEnv (fun _ => Raises) (fun _ => true) None in
  let failing := mkEnv (fun _ => Raises) (fun _ => false) None in
  let full := mkWorld 0 [] 0 0 (Some [111; 108; 100]%N) [] true in
  let empty := mkWorld 0 [] 0 0 (Some []) [] true in
  clipboard (snd (replace_selected_text ok [104; 105]%N full)) = clipboard full /\
  clipboard (snd (replace_selected_text failing [104; 105]%N full)) = clipboard full /\
  clipboard (snd (replace_selected_text ok [104; 105]%N empty)) = Some [104; 105]%N /\
  clipboard (snd (replace_selected_text failing [104; 105]%N empty)) = Some [104; 105]%N.
Proof.
  intros ok failing full empty.
  split; [|split; [|split]].
  - apply (proj1 (proj2 (replace_selected_text_clipboard_outcome ok [104; 105]%N full))).
    reflexivity.
  - apply (proj1 (proj2 (replace_selected_text_clipboard_outcome failing [104; 105]%N full))).
    reflexivity.
  - apply (proj1 (proj2 (proj2 (replace_selected_text_clipboard_outcome ok [104; 105]%N empty)))).
    + reflexivity.
    + discriminate.
  - apply (proj1 (proj2 (proj2 (replace_selected_text_clipboard_outcome failing [104; 105]%N empty)))).
    + reflexivity.
    + discriminate.
Defined.

(** C9 as stated fails: with nothing on the clipboard before the call, the
    pasted text is still on the clipboard when the call returns. *)
Lemma replace_selected_text_empty_clipboard_not_restored :
  let env := mkEnv (fun _ => Raises) (fun _ => true) None in
  let w := mkWorld 0 [] 0 0 None [] true in
  fst (replace_selected_text env [104; 105]%N w) = Ok true /\
  clipboard (snd (replace_selected_text env [104; 105]%N w)) = Some [104; 105]%N /\
  ~ (forall (e : Env) (t : pystr) (w0 : World),
        clipboard (snd (replace_selected_text e t w0)) = clipboard w0).
Proof.
  repeat split.
  intros H.
  specialize (H (mkEnv (fun _ => Raises) (fun _ => true) None) [104; 105]%N
                (mkWorld 0 [] 0 0 None [] true)).
  vm_compute in H. discriminate.
Qed.

(** ** [ConfigManager._validate] *)

Lemma raises_Raise {A} (e : exn) : raises (@Raise A e).
Proof. now exists e. Qed.

Lemma not_raises_Ok {A} (a : A) : ~ raises (Ok a).
Proof. intros [e H]. discriminate. Qed.

Create HintDb validate.
#[local] Hint Resolve raises_Raise not_raises_Ok : validate.



(** ** [ConfigManager._merge_with_defaults] *)

Lemma dict_get_set_same (k : string) (v : value) (d : dict) :
  dict_get k (dict_set k v d) = Some v.
Proof.
  induction d as [|[k' v'] r IH]; simpl.
  - now rewrite String.eqb_refl.
  - destruct (String.eqb k k') eqn:E; simpl; rewrite E; auto.
Qed.

Lemma dict_get_set_other (k k' : string) (v : value) (d : dict) :
  k <> k' -> dict_get k' (dict_set k v d) = dict_get k' d.
Proof.
  intros Hne. induction d as [|[k0 v0] r IH]; simpl.
  - destruct (String.eqb k' k) eqn:E; auto.
    apply String.eqb_eq in E. congruence.
  - destruct (String.eqb k k0) eqn:E; simpl.
    + apply String.eqb_eq in E. subst k0.
      destruct (String.eqb k' k) eqn:E'; auto.
      apply String.eqb_eq in E'. congruence.
    + now rewrite IH.
Qed.

Lemma dict_get_not_in (k : string) (d : dict) :
  ~ In k (keys d) -> dict_get k d = None.
Proof.
  induction d as [|[k' v'] r IH]; simpl; auto.
  intros H. destruct (String.eqb k k') eqn:E.
  - apply String.eqb_eq in E. subst. tauto.
  - apply IH. tauto.
Qed.

Lemma dict_get_in (k : string) (v : value) (d : dict) :
  dict_get k d = Some v -> In k (keys d).
Proof.
  induction d as [|[k' v'] r IH]; simpl; [discriminate|].
  destruct (String.eqb k k') eqn:E; auto.
  apply String.eqb_eq in E. auto.
Qed.

(** The equation of the source: the body of [_merge_with_defaults] is the
    loop over the items of [config], calling [_merge_with_defaults] itself
    on nested mappings. *)
Lemma merge_with_defaults_eq (config defaults : dict) :
  _merge_with_defaults config defaults =
  merge_items _merge_with_defaults config defaults.
Proof.
  unfold _merge_with_defaults at 1. simpl.
  generalize defaults. clear defaults.
  induction config as [|[key v] rest IH]; intros result; simpl; auto.
  rewrite IH. destruct v; reflexivity.
Qed.

Lemma merge_items_absent (rec : dict -> dict -> dict) (k : string)
      (items : list (string * value)) (result : dict) :
  ~ In k (keys items) ->
  dict_get k (merge_items rec items result) = dict_get k result.
Proof.
  revert result.
  induction items as [|[key v] rest IH]; intros result Hk; simpl in *; auto.
  rewrite IH by tauto.
  assert (Hne : key <> k) by tauto.
  destruct v; try (now apply dict_get_set_other).
  destruct (dict_get key result) as [[| | | |rd| |]|]; now apply dict_get_set_other.
Qed.

Lemma merge_items_present (rec : dict -> dict -> dict) (k : string) (v : value)
      (items : list (string * value)) (result : dict) :
  NoDup (keys items) ->
  dict_get k items = Some v ->
  dict_get k (merge_items rec items result) =
  Some (merged_entry rec v (dict_get k result)).
Proof.
  revert result.
  induction items as [|[key v0] rest IH]; intros result Hnd Hget; simpl in *;
    [discriminate|].
  inversion Hnd as [|? ? Hnotin Hnd']; subst.
  destruct (String.eqb k key) eqn:E.
  - apply String.eqb_eq in E. subst key. inversion Hget; subst v0.
    rewrite merge_items_absent by assumption.
    unfold merged_entry.
    destruct v; try (now apply dict_get_set_same).
    destruct (dict_get k result) as [[| | | |rd| |]|]; now apply dict_get_set_same.
  - apply String.eqb_neq in E.
    rewrite (IH _ Hnd' Hget). f_equal. f_equal.
    destruct v0; try (apply dict_get_set_other; congruence).
    destruct (dict_get key result) as [[| | | |rd| |]|];
      apply dict_get_set_other; congruence.
Qed.

(** C7.  For a user document (a mapping, so without repeated keys) merged
    with a table of defaults: a key of the defaults that the user document
    lacks keeps its default value; a key of the user document takes the
    user's value, except that where both sides hold a mapping the entry is
    the merge of the two by the same function. *)
Theorem merge_with_defaults_spec (config defaults : dict) :
  NoDup (keys config) ->
  (forall k, ~ In k (keys config) ->
             dict_get k (_merge_with_defaults config defaults) = dict_get k defaults) /\
  (forall k v, dict_get k config = Some v ->
               dict_get k (_merge_with_defaults config defaults) =
               Some (match v, dict_get k defaults with
                     | VDict vd, Some (VDict rd) => VDict (_merge_with_defaults vd rd)
                     | _, _ => v
                     end)).
Proof.
  intros Hnd. rewrite merge_with_defaults_eq. split.
  - intros k Hk. now apply merge_items_absent.
  - intros k v Hget.
    now rewrite (merge_items_present _merge_with_defaults k v config defaults Hnd Hget).
Qed.

(** The example of the specification: a user document that only sets
    [rate_limit.requests_per_minute] to 30. *)
Lemma merge_with_defaults_spec_witness :
  let user := [("rate_limit"%string,
                VDict [("requests_per_minute"%string, VInt 30)])] in
  let merged := _merge_with_defaults user DEFAULT_CONFIG in
  dict_get "gemini" merged = dict_get "gemini" DEFAULT_CONFIG /\
  dict_get "rate_limit" merged =
    Some (VDict (_merge_with_defaults [("requests_per_minute"%string, VInt 30)]
                                      [("requests_per_minute"%string, VInt 50)])) /\
  (match dict_get "gemini" merged with
   | Some (VDict g) => dict_get "model" g
   | _ => None
   end) = Some (VStr "gemini-2.0-flash-exp") /\
  (match dict_get "rate_limit" merged with
   | Some (VDict r) => dict_get "requests_per_minute" r
   | _ => None
   end) = Some (VInt 30).
Proof.
  intros user merged.
  assert (Hnd : NoDup (keys user)) by (repeat constructor; simpl; tauto).
  destruct (merge_with_defaults_spec user DEFAULT_CONFIG Hnd) as [Habs Hpres].
  split; [|split; [|split]].
  - apply Habs. simpl. intros [H|[]]. discriminate.
  - exact (Hpres "rate_limit"%string
                  (VDict [("requests_per_minute"%string, VInt 30)]) eq_refl).
  - reflexivity.
  - reflexivity.
Defined.

(** ** [GeminiClient._check_rate_limit]: one call *)

Lemma check_rate_limit_run (c : GeminiClient) (w : World) :
  0 < requests_per_minute c ->
  _check_rate_limit c w = (Ok tt, limiter_world c w (limiter_wait c w)).
Proof.
  intros Hpos. unfold _check_rate_limit, limiter_wait, limiter_world, deque_front.
  run.
  destruct (requests_per_minute c <=? Z.of_nat (List.length (discard_old (clock w) (request_times w)))) eqn:E.
  - destruct (discard_old (clock w) (request_times w)) as [|oldest rest] eqn:D; simpl in *.
    + apply Z.leb_le in E. lia.
    + destruct (Qlt_le_dec 0 (60 - (clock w - oldest))); reflexivity.
  - reflexivity.
Qed.

Lemma limiter_world_api_calls (c : GeminiClient) (w : World) (d : option Q) :
  api_calls (limiter_world c w d) = api_calls w.
Proof. destruct d; reflexivity. Qed.

(** ** The retry loop *)

Section Retry.

Variable env : Env.
Variable c : GeminiClient.
Variable prompt : pystr.

Lemma attempt_once_raises (attempt : Z) (w : World) :
  provider env (api_calls w) = Raises ->
  attempt_once env c prompt attempt w = (Ok None, backoff c attempt (called prompt w)).
Proof.
  intros H. unfold attempt_once, generate_content, backoff. run. rewrite H.
  destruct (attempt <? max_retries c - 1); reflexivity.
Qed.

Lemma attempt_once_empty (attempt : Z) (w : World) :
  provider env (api_calls w) = Responds [] ->
  attempt_once env c prompt attempt w = (Ok None, called prompt w).
Proof.
  intros H. unfold attempt_once, generate_content. run. now rewrite H.
Qed.

Lemma attempt_once_success (attempt : Z) (text : pystr) (w : World) :
  provider env (api_calls w) = Responds text ->
  text <> [] ->
  attempt_once env c prompt attempt w = (Ok (Some (strip text)), called prompt w).
Proof.
  intros H Hne. unfold attempt_once, generate_content. run. rewrite H.
  destruct text; [congruence | reflexivity].
Qed.

Lemma backoff_api_calls (attempt : Z) (w : World) :
  api_calls (backoff c attempt w) = api_calls w.
Proof. unfold backoff. destruct (attempt <? max_retries c - 1); reflexivity. Qed.

(** When every reply fails, the loop runs through all its attempts:
    one provider call each, the result [None], no exception. *)
Lemma retry_loop_all_fail (n : nat) :
  forall (a : nat) (w : World),
    (forall i, (i < n)%nat -> failing (provider env (api_calls w + i))) ->
    exists w',
      retry_loop env c prompt (map Z.of_nat (seq a n)) w = (Ok None, w') /\
      api_calls w' = (api_calls w + n)%nat /\
      provider_calls (trace w') = (provider_calls (trace w) + n)%nat /\
      request_times w' = request_times w.
Proof.
  induction n as [|n IH]; intros a w Hfail; simpl.
  - exists w. rewrite !Nat.add_0_r. auto.
  - assert (H0 : failing (provider env (api_calls w))).
    { specialize (Hfail 0%nat). rewrite Nat.add_0_r in Hfail. apply Hfail. lia. }
    assert (Hstep : exists w1,
               attempt_once env c prompt (Z.of_nat a) w = (Ok None, w1) /\
               api_calls w1 = S (api_calls w) /\
               provider_calls (trace w1) = S (provider_calls (trace w)) /\
               request_times w1 = request_times w).
    { assert (Hcalls : forall evs p, provider_calls (evs ++ [EGenerate p]) = S (provider_calls evs)).
      { induction evs as [|e r IHr]; intros p; simpl; auto.
        destruct e; simpl; now rewrite IHr. }
      assert (Hsleep : forall evs d, provider_calls (evs ++ [ESleep d]) = provider_calls evs).
      { induction evs as [|e r IHr]; intros d; simpl; auto.
        destruct e; simpl; now rewrite IHr. }
      destruct H0 as [H0 | H0].
      - rewrite (attempt_once_raises _ _ H0). eexists. split; [reflexivity|].
        unfold backoff.
        destruct (Z.of_nat a <? max_retries c - 1); simpl;
          rewrite ?Hsleep, Hcalls; auto.
      - rewrite (attempt_once_empty _ _ H0). eexists. split; [reflexivity|].
        simpl. rewrite Hcalls. auto. }
    destruct Hstep as (w1 & E1 & Hc1 & Hp1 & Hr1).
    destruct (IH (S a) w1) as (w' & E' & Hc' & Hp' & Hr').
    { intros i Hi. rewrite Hc1.
      replace (S (api_calls w) + i)%nat with (api_calls w + S i)%nat by lia.
      apply Hfail. lia. }
    exists w'. unfold bind. rewrite E1. rewrite E'.
    repeat split; try lia; congruence.
Qed.

End Retry.

Lemma provider_calls_app (evs evs' : list event) :
  provider_calls (evs ++ evs') = (provider_calls evs + provider_calls evs')%nat.
Proof.
  induction evs as [|e r IH]; simpl; auto.
  destruct e; simpl; now rewrite IH.
Qed.

Lemma limiter_world_provider_calls (c : GeminiClient) (w : World) (d : option Q) :
  provider_calls (trace (limiter_world c w d)) = provider_calls (trace w).
Proof.
  destruct d; simpl; auto.
  rewrite provider_calls_app. simpl. lia.
Qed.

(** The five modes are the keys of [PROMPTS]. *)
Lemma known_modes :
  map fst PROMPTS = ["grammar_fix"; "formal"; "casual"; "simplify"; "expand"]%string.
Proof. reflexivity. Qed.

(** ** [GeminiClient.improve_text]: a provider that always fails *)

(** C3, as the code has it.  For a client with a positive quota, a text
    that is not blank and one of the five modes: when every reply of the
    provider is an exception or an empty response, [improve_text] calls
    the provider [max_retries] times (not at all when [max_retries] is
    not positive), raises nothing and returns [None]. *)
Theorem improve_text_exhausts_retries
        (env : Env) (c : GeminiClient) (text : pystr) (mode : string) (w : World) :
  0 < requests_per_minute c ->
  blank_input text = false ->
  In mode ["grammar_fix"; "formal"; "casual"; "simplify"; "expand"]%string ->
  (forall i, (i < Z.to_nat (max_retries c))%nat ->
             failing (provider env (api_calls w + i))) ->
  exists w',
    improve_text env c text mode w = (Ok None, w') /\
    api_calls w' = (api_calls w + Z.to_nat (max_retries c))%nat /\
    provider_calls (trace w') =
      (provider_calls (trace w) + Z.to_nat (max_retries c))%nat.
Proof.
  intros Hrpm Htext Hmode Hfail.
  unfold improve_text. rewrite Htext.
  rewrite <- known_modes in Hmode.
  destruct (prompt_template_known mode PROMPTS Hmode) as [template ->].
  unfold bind. rewrite (check_rate_limit_run c w Hrpm).
  set (w1 := limiter_world c w (limiter_wait c w)).
  destruct (retry_loop_all_fail env c (format_prompt template text)
              (Z.to_nat (max_retries c)) 0 w1) as (w' & E & Hc & Hp & _).
  { intros i Hi. unfold w1. rewrite limiter_world_api_calls. now apply Hfail. }
  exists w'. unfold py_range. rewrite E.
  unfold w1 in Hc, Hp.
  rewrite limiter_world_api_calls in Hc.
  rewrite limiter_world_provider_calls in Hp. auto.
Qed.

Lemma improve_text_exhausts_retries_witness :
  let env := mkEnv (fun i => if Nat.even i then Raises else Responds [])
                   (fun _ => true) None in
  let w := mkWorld 100 [] 0 0 None [] false in
  exists w',
    improve_text env (mkClient 50 3) [104; 105]%N "formal" w = (Ok None, w') /\
    api_calls w' = 3%nat /\
    provider_calls (trace w') = 3%nat.
Proof.
  intros env w.
  apply (improve_text_exhausts_retries env (mkClient 50 3) [104; 105]%N "formal" w).
  - reflexivity.
  - reflexivity.
  - simpl. auto.
  - intros i _. unfold failing. simpl. destruct (Nat.even i); auto.
Defined.

(** C3 as stated fails for a text that is not empty but blank: the
    provider is never called, whatever [max_retries] is. *)
Lemma improve_text_blank_text_makes_no_attempt :
  ~ (forall (env : Env) (c : GeminiClient) (text : pystr) (mode : string) (w : World),
        text <> [] ->
        In mode ["grammar_fix"; "formal"; "casual"; "simplify"; "expand"]%string ->
        (forall i, failing (provider env i)) ->
        exists w',
          improve_text env c text mode w = (Ok None, w') /\
          api_calls w' = (api_calls w + Z.to_nat (max_retries c))%nat).
Proof.
  intros H.
  destruct (H (mkEnv (fun _ => Raises) (fun _ => true) None) (mkClient 50 3)
              [32]%N "formal"%string (mkWorld 100 [] 0 0 None [] false))
    as (w' & E & Hc).
  - discriminate.
  - simpl. auto.
  - intros i. left. reflexivity.
  - vm_compute in E. inversion E; subst w'. vm_compute in Hc. discriminate.
Qed.

(** ** [GeminiClient.improve_text]: transient failures *)

Section Transient.

Variable env : Env.
Variable c : GeminiClient.
Variable prompt : pystr.

Lemma retry_loop_raises (n : nat) :
  forall (a : nat) (rest : list Z) (w : World),
    (forall i, (i < n)%nat -> provider env (api_calls w + i) = Raises) ->
    retry_loop env c prompt (map Z.of_nat (seq a n) ++ rest) w =
    retry_loop env c prompt rest (after_raises c prompt a n w).
Proof.
  induction n as [|n IH]; intros a rest w Hr; simpl; auto.
  unfold bind. rewrite attempt_once_raises.
  - apply IH. intros i Hi. rewrite backoff_api_calls. simpl.
    replace (S (api_calls w + i)) with (api_calls w + S i)%nat by lia.
    apply Hr. lia.
  - specialize (Hr 0%nat). rewrite Nat.add_0_r in Hr. apply Hr. lia.
Qed.

Lemma after_raises_api_calls (n : nat) :
  forall (a : nat) (w : World),
    api_calls (after_raises c prompt a n w) = (api_calls w + n)%nat.
Proof.
  induction n as [|n IH]; intros a w; simpl; [lia|].
  rewrite IH, backoff_api_calls. simpl. lia.
Qed.

Lemma after_raises_trace (n : nat) :
  forall (a : nat) (w : World),
    Z.of_nat a + Z.of_nat n <= max_retries c - 1 ->
    trace (after_raises c prompt a n w) = trace w ++ raising_events prompt a n.
Proof.
  induction n as [|n IH]; intros a w Hlt; simpl.
  - unfold raising_events. simpl. now rewrite app_nil_r.
  - rewrite IH by lia. unfold backoff.
    replace (Z.of_nat a <? max_retries c - 1) with true
      by (symmetry; apply Z.ltb_lt; lia).
    unfold raising_events. simpl. rewrite <- !app_assoc. reflexivity.
Qed.

End Transient.

Lemma delays_app (evs evs' : list event) :
  delays (evs ++ evs') = delays evs ++ delays evs'.
Proof.
  induction evs as [|e r IH]; simpl; auto.
  destruct e; simpl; now rewrite IH.
Qed.

Lemma delays_raising_events (prompt : pystr) (n : nat) :
  forall a, delays (raising_events prompt a n) =
            map (fun i => inject_Z (2 ^ Z.of_nat i)) (seq a n).
Proof.
  induction n as [|n IH]; intros a; simpl; auto.
  unfold raising_events in *. simpl. now rewrite IH.
Qed.

Lemma provider_calls_raising_events (prompt : pystr) (n : nat) :
  forall a, provider_calls (raising_events prompt a n) = n.
Proof.
  induction n as [|n IH]; intros a; simpl; auto.
  unfold raising_events in *. simpl. now rewrite IH.
Qed.

(** 2^a + 2^(a+1) + ... + 2^(a+n-1) = 2^a * (2^n - 1) *)
Lemma Qsum_powers (n : nat) :
  forall a, Qsum (map (fun i => inject_Z (2 ^ Z.of_nat i)) (seq a n)) ==
            inject_Z (2 ^ Z.of_nat a * (2 ^ Z.of_nat n - 1)).
Proof.
  induction n as [|n IH]; intros a.
  - simpl. rewrite Z.mul_0_r. reflexivity.
  - simpl seq. simpl map. simpl Qsum. fold (Qsum (map (fun i => inject_Z (2 ^ Z.of_nat i)) (seq (S a) n))).
    rewrite IH. rewrite <- inject_Z_plus.
    apply inject_Z_injective.
    rewrite !Nat2Z.inj_succ, !Z.pow_succ_r by lia. ring.
Qed.

(** C4.  For a client with a positive quota, a text that is not blank and
    a known mode: when the provider raises on the first [N] attempts,
    [N < max_retries], and answers a non-empty text on the next one,
    [improve_text] returns that text (stripped).  After the rate limiter,
    the call makes [N + 1] provider calls and sleeps 2^0, 2^1, ...,
    2^(N-1) seconds, in this order: 2^N - 1 seconds in all. *)
Theorem improve_text_transient_failures
        (env : Env) (c : GeminiClient) (text : pystr) (mode : string) (w : World)
        (N : nat) (answer : pystr) :
  0 < requests_per_minute c ->
  blank_input text = false ->
  In mode ["grammar_fix"; "formal"; "casual"; "simplify"; "expand"]%string ->
  Z.of_nat N < max_retries c ->
  (forall i, (i < N)%nat -> provider env (api_calls w + i) = Raises) ->
  provider env (api_calls w + N) = Responds answer ->
  answer <> [] ->
  exists w' evs,
    improve_text env c text mode w = (Ok (Some (strip answer)), w') /\
    trace w' = trace (snd (_check_rate_limit c w)) ++ evs /\
    provider_calls evs = S N /\
    delays evs = map (fun i => inject_Z (2 ^ Z.of_nat i)) (seq 0 N) /\
    Qsum (delays evs) == inject_Z (2 ^ Z.of_nat N - 1).
Proof.
  intros Hrpm Htext Hmode HN Hraise Hanswer Hne.
  unfold improve_text. rewrite Htext.
  rewrite <- known_modes in Hmode.
  destruct (prompt_template_known mode PROMPTS Hmode) as [template ->].
  unfold bind at 1. rewrite (check_rate_limit_run c w Hrpm). simpl snd.
  set (w1 := limiter_world c w (limiter_wait c w)).
  set (prompt := format_prompt template text).
  assert (Hsplit : py_range (max_retries c) =
                   map Z.of_nat (seq 0 N) ++
                   Z.of_nat N :: map Z.of_nat (seq (S N) (Z.to_nat (max_retries c) - S N))).
  { unfold py_range.
    replace (Z.to_nat (max_retries c))
      with (N + S (Z.to_nat (max_retries c) - S N))%nat at 1 by lia.
    rewrite seq_app, map_app. reflexivity. }
  rewrite Hsplit, retry_loop_raises.
  2:{ intros i Hi. unfold w1. rewrite limiter_world_api_calls. now apply Hraise. }
  simpl retry_loop. unfold bind.
  rewrite (attempt_once_success env c prompt (Z.of_nat N) answer).
  2:{ rewrite after_raises_api_calls. unfold w1.
      now rewrite limiter_world_api_calls. }
  2:{ assumption. }
  exists (called prompt (after_raises c prompt 0 N w1)),
         (raising_events prompt 0 N ++ [EGenerate prompt]).
  split; [reflexivity|].
  split.
  { simpl. rewrite after_raises_trace by lia. now rewrite <- app_assoc. }
  split.
  { rewrite provider_calls_app, provider_calls_raising_events. simpl. lia. }
  assert (Hd : delays (raising_events prompt 0 N ++ [EGenerate prompt]) =
               map (fun i => inject_Z (2 ^ Z.of_nat i)) (seq 0 N)).
  { rewrite delays_app, delays_raising_events. simpl. apply app_nil_r. }
  split; [exact Hd|].
  rewrite Hd, Qsum_powers. simpl (Z.of_nat 0).
  rewrite Z.pow_0_r, Z.mul_1_l. reflexivity.
Qed.

Lemma improve_text_transient_failures_witness :
  let env := mkEnv (fun i => if (i <? 2)%nat then Raises else Responds [32; 111; 107]%N)
                   (fun _ => true) None in
  let w := mkWorld 100 [] 0 0 None [] false in
  exists w' evs,
    improve_text env (mkClient 50 3) [104; 105]%N "formal" w =
      (Ok (Some (strip [32; 111; 107]%N)), w') /\
    trace w' = trace (snd (_check_rate_limit (mkClient 50 3) w)) ++ evs /\
    provider_calls evs = 3%nat /\
    delays evs = [inject_Z 1; inject_Z 2] /\
    Qsum (delays evs) == inject_Z 3.
Proof.
  intros env w.
  apply (improve_text_transient_failures env (mkClient 50 3) [104; 105]%N "formal" w
           2 [32; 111; 107]%N).
  - reflexivity.
  - reflexivity.
  - simpl. auto.
  - reflexivity.
  - intros i Hi. simpl.
    destruct i as [|[|i]]; [reflexivity | reflexivity | lia].
  - reflexivity.
  - discriminate.
Defined.

(** ** [GeminiClient.improve_text]: the two kinds of failure *)

Section Empty.

Variable env : Env.
Variable c : GeminiClient.
Variable prompt : pystr.

Lemma retry_loop_empties (n : nat) :
  forall (a : nat) (rest : list Z) (w : World),
    (forall i, (i < n)%nat -> provider env (api_calls w + i) = Responds []) ->
    retry_loop env c prompt (map Z.of_nat (seq a n) ++ rest) w =
    retry_loop env c prompt rest (after_empties prompt n w).
Proof.
  induction n as [|n IH]; intros a rest w He; simpl; auto.
  unfold bind. rewrite attempt_once_empty.
  - apply IH. intros i Hi. simpl.
    replace (S (api_calls w + i)) with (api_calls w + S i)%nat by lia.
    apply He. lia.
  - specialize (He 0%nat). rewrite Nat.add_0_r in He. apply He. lia.
Qed.

Lemma after_empties_world (n : nat) :
  forall (w : World),
    api_calls (after_empties prompt n w) = (api_calls w + n)%nat /\
    trace (after_empties prompt n w) = trace w ++ repeat (EGenerate prompt) n /\
    clock (after_empties prompt n w) = clock w.
Proof.
  induction n as [|n IH]; intros w; simpl.
  - rewrite app_nil_r. auto.
  - destruct (IH (called prompt w)) as (Ha & Ht & Hc).
    rewrite Ha, Ht, Hc. simpl. rewrite <- app_assoc. repeat split. lia.
Qed.

End Empty.

Lemma delays_repeat_generate (prompt : pystr) (n : nat) :
  delays (repeat (EGenerate prompt) n) = [].
Proof. induction n; simpl; auto. Qed.

(** C5, as the code has it.  (1) A failed attempt calls the provider once
    and lets the loop go on; if it raised, a sleep of 2^attempt seconds
    follows unless it was the last attempt; if the provider returned an
    empty response, no sleep follows, whatever the attempt number.
    (2) Hence, for accepted input, when the first [N] replies are empty
    responses, [N < max_retries], and the next one is a text,
    [improve_text] returns that text having made [N + 1] provider calls
    with no sleep between them: the clock still shows the time at which
    the rate limiter returned. *)
Theorem failed_attempt_delay (env : Env) (c : GeminiClient) :
  (forall (prompt : pystr) (attempt : Z) (w : World),
      (provider env (api_calls w) = Raises ->
       fst (attempt_once env c prompt attempt w) = Ok None /\
       trace (snd (attempt_once env c prompt attempt w)) =
         trace w ++ EGenerate prompt ::
           (if attempt <? max_retries c - 1
            then [ESleep (inject_Z (2 ^ attempt))] else [])) /\
      (provider env (api_calls w) = Responds [] ->
       fst (attempt_once env c prompt attempt w) = Ok None /\
       trace (snd (attempt_once env c prompt attempt w)) = trace w ++ [EGenerate prompt] /\
       clock (snd (attempt_once env c prompt attempt w)) = clock w)) /\
  (forall (text : pystr) (mode : string) (w : World) (N : nat) (answer : pystr),
      0 < requests_per_minute c ->
      blank_input text = false ->
      In mode ["grammar_fix"; "formal"; "casual"; "simplify"; "expand"]%string ->
      Z.of_nat N < max_retries c ->
      (forall i, (i < N)%nat -> provider env (api_calls w + i) = Responds []) ->
      provider env (api_calls w + N) = Responds answer ->
      answer <> [] ->
      exists w' evs,
        improve_text env c text mode w = (Ok (Some (strip answer)), w') /\
        trace w' = trace (snd (_check_rate_limit c w)) ++ evs /\
        provider_calls evs = S N /\
        delays evs = [] /\
        clock w' = clock (snd (_check_rate_limit c w))).
Proof.
  split.
  - intros prompt attempt w. split; intros H.
    + rewrite (attempt_once_raises env c prompt attempt w H). split; [reflexivity|].
      unfold backoff. destruct (attempt <? max_retries c - 1); simpl;
        rewrite <- ?app_assoc; reflexivity.
    + rewrite (attempt_once_empty env c prompt attempt w H). auto.
  - intros text mode w N answer Hrpm Htext Hmode HN Hempty Hanswer Hne.
    unfold improve_text. rewrite Htext.
    rewrite <- known_modes in Hmode.
    destruct (prompt_template_known mode PROMPTS Hmode) as [template ->].
    unfold bind at 1. rewrite (check_rate_limit_run c w Hrpm). simpl snd.
    set (w1 := limiter_world c w (limiter_wait c w)).
    set (prompt := format_prompt template text).
    assert (Hsplit : py_range (max_retries c) =
                     map Z.of_nat (seq 0 N) ++
                     Z.of_nat N :: map Z.of_nat (seq (S N) (Z.to_nat (max_retries c) - S N))).
    { unfold py_range.
      replace (Z.to_nat (max_retries c))
        with (N + S (Z.to_nat (max_retries c) - S N))%nat at 1 by lia.
      rewrite seq_app, map_app. reflexivity. }
    destruct (after_empties_world prompt N w1) as (Ha & Ht & Hc).
    rewrite Hsplit, retry_loop_empties.
    2:{ intros i Hi. unfold w1. rewrite limiter_world_api_calls. now apply Hempty. }
    simpl retry_loop. unfold bind.
    rewrite (attempt_once_success env c prompt (Z.of_nat N) answer).
    2:{ rewrite Ha. unfold w1. now rewrite limiter_world_api_calls. }
    2:{ assumption. }
    exists (called prompt (after_empties prompt N w1)),
           (repeat (EGenerate prompt) N ++ [EGenerate prompt]).
    split; [reflexivity|].
    split; [simpl; rewrite Ht; now rewrite <- app_assoc|].
    split.
    { rewrite provider_calls_app. simpl.
      clear. induction N; simpl; lia. }
    split.
    { rewrite delays_app, delays_repeat_generate. reflexivity. }
    simpl. exact Hc.
Qed.

Lemma failed_attempt_delay_witness :
  let w := mkWorld 100 [] 0 0 None [] false in
  let c := mkClient 50 3 in
  let empties := mkEnv (fun i => if (i <? 2)%nat then Responds [] else Responds [111; 107]%N)
                       (fun _ => true) None in
  trace (snd (attempt_once (mkEnv (fun _ => Raises) (fun _ => true) None)
                           c [104]%N 1 w)) =
    [EGenerate [104]%N; ESleep (inject_Z 2)] /\
  trace (snd (attempt_once empties c [104]%N 1 w)) = [EGenerate [104]%N] /\
  exists w' evs,
    improve_text empties c [104; 105]%N "formal" w =
      (Ok (Some (strip [111; 107]%N)), w') /\
    trace w' = trace (snd (_check_rate_limit c w)) ++ evs /\
    provider_calls evs = 3%nat /\
    delays evs = [] /\
    clock w' = clock (snd (_check_rate_limit c w)).
Proof.
  intros w c empties.
  split; [|split].
  - apply (proj1 (proj1 (failed_attempt_delay
                           (mkEnv (fun _ => Raises) (fun _ => true) None) c)
                        [104]%N 1 w)).
    reflexivity.
  - apply (proj2 (proj1 (failed_attempt_delay empties c) [104]%N 1 w)).
    reflexivity.
  - apply (proj2 (failed_attempt_delay empties c) [104; 105]%N "formal"%string w
                 2%nat [111; 107]%N).
    + reflexivity.
    + reflexivity.
    + simpl. auto.
    + reflexivity.
    + intros i Hi. simpl.
      destruct i as [|[|i]]; [reflexivity | reflexivity | lia].
    + reflexivity.
    + discriminate.
Defined.

(** C5 as stated fails: with three attempts allowed and a first attempt
    that fails, [improve_text] sleeps one second before the second attempt
    when the failure was an exception, and does not sleep when it was an
    empty response. *)
Lemma improve_text_empty_response_no_backoff :
  let raising := mkEnv (fun i => if (i <? 1)%nat then Raises else Responds [111; 107]%N)
                       (fun _ => true) None in
  let empty := mkEnv (fun i => if (i <? 1)%nat then Responds [] else Responds [111; 107]%N)
                     (fun _ => true) None in
  let c := mkClient 50 3 in
  let w := mkWorld 100 [] 0 0 None [] false in
  delays (trace (snd (improve_text raising c [104; 105]%N "formal" w))) = [inject_Z 1] /\
  delays (trace (snd (improve_text empty c [104; 105]%N "formal" w))) = [] /\
  ~ (forall (env env' : Env) (c : GeminiClient) (text : pystr) (mode : string) (w : World),
        provider env 0%nat = Raises ->
        provider env' 0%nat = Responds [] ->
        (forall i, provider env (S i) = provider env' (S i)) ->
        delays (trace (snd (improve_text env c text mode w))) =
        delays (trace (snd (improve_text env' c text mode w)))).
Proof.
  split; [reflexivity|]. split; [reflexivity|].
  intros H.
  specialize (H (mkEnv (fun i => if (i <? 1)%nat then Raises else Responds [111; 107]%N)
                       (fun _ => true) None)
                (mkEnv (fun i => if (i <? 1)%nat then Responds [] else Responds [111; 107]%N)
                       (fun _ => true) None)
                (mkClient 50 3) [104; 105]%N "formal"%string
                (mkWorld 100 [] 0 0 None [] false)
                eq_refl eq_refl (fun _ => eq_refl)).
  vm_compute in H. discriminate.
Qed.

(** ** [WritingAssistant.handle_hotkey] and the processing lock *)

Lemma keeps_lock_ret {A} (a : A) : keeps_lock (ret a).
Proof. intros w. reflexivity. Qed.

Lemma keeps_lock_lift {A} (r : res A) : keeps_lock (lift r).
Proof. intros w. reflexivity. Qed.

Lemma keeps_lock_gets {A} (f : World -> A) : keeps_lock (gets f).
Proof. intros w. reflexivity. Qed.

Lemma keeps_lock_modify (f : World -> World) :
  (forall w, lock_held (f w) = lock_held w) -> keeps_lock (modify f).
Proof. intros H w. apply H. Qed.

Lemma keeps_lock_bind {A B} (m : M A) (k : A -> M B) :
  keeps_lock m -> (forall a, keeps_lock (k a)) -> keeps_lock (bind m k).
Proof.
  intros Hm Hk w. unfold bind. specialize (Hm w).
  destruct (m w) as [[a|e] w1]; simpl in *.
  - now rewrite Hk.
  - assumption.
Qed.

Lemma keeps_lock_try_except {A} (body : M A) (handler : exn -> M A) :
  keeps_lock body -> (forall e, keeps_lock (handler e)) ->
  keeps_lock (try_except body handler).
Proof.
  intros Hb Hh w. unfold try_except. specialize (Hb w).
  destruct (body w) as [[a|e] w1]; simpl in *.
  - assumption.
  - now rewrite Hh.
Qed.

Lemma keeps_lock_time_sleep (d : Q) : keeps_lock (time_sleep d).
Proof. intros w. reflexivity. Qed.

Create HintDb lock.
#[local] Hint Resolve keeps_lock_ret keeps_lock_lift keeps_lock_gets
  keeps_lock_bind keeps_lock_try_except keeps_lock_time_sleep : lock.

Ltac keeps_lock_step :=
  match goal with
  | |- keeps_lock (bind _ _) => apply keeps_lock_bind; [|intros ?]
  | |- keeps_lock (try_except _ _) => apply keeps_lock_try_except; [|intros ?]
  | |- keeps_lock (modify _) => apply keeps_lock_modify; intros ?; reflexivity
  | |- keeps_lock (if ?b then _ else _) => destruct b
  | |- keeps_lock (match ?x with _ => _ end) => destruct x
  | |- keeps_lock _ => solve [auto with lock]
  end.

Lemma keeps_lock_check_rate_limit (c : GeminiClient) : keeps_lock (_check_rate_limit c).
Proof.
  unfold _check_rate_limit, time_time. repeat keeps_lock_step.
  intros w. unfold deque_front. destruct (request_times w); reflexivity.
Qed.

Section Lock.

Variable env : Env.
Variable config : dict.
Variable c : GeminiClient.

Lemma keeps_lock_generate_content (prompt : pystr) :
  keeps_lock (generate_content env prompt).
Proof.
  intros w. unfold generate_content.
  destruct (provider env (api_calls w)); reflexivity.
Qed.

Lemma keeps_lock_retry_loop (prompt : pystr) (attempts : list Z) :
  keeps_lock (retry_loop env c prompt attempts).
Proof.
  induction attempts as [|a rest IH]; simpl; [auto with lock|].
  apply keeps_lock_bind.
  - unfold attempt_once.
    apply keeps_lock_try_except; [|intros ?]; repeat keeps_lock_step.
    apply keeps_lock_generate_content.
  - intros [t|]; auto with lock.
Qed.

Lemma keeps_lock_improve_text (text : pystr) (mode : string) :
  keeps_lock (improve_text env c text mode).
Proof.
  unfold improve_text.
  destruct (blank_input text); [auto with lock|].
  destruct (prompt_template mode PROMPTS); [|auto with lock].
  apply keeps_lock_bind; [apply keeps_lock_check_rate_limit|].
  intros _. apply keeps_lock_retry_loop.
Qed.

Lemma keeps_lock_execute_applescript (s : script) :
  keeps_lock (_execute_applescript env s).
Proof.
  intros w. unfold _execute_applescript.
  destruct (osascript_ok env (scripts_run w)); [|reflexivity].
  destruct s; simpl; try reflexivity.
  destruct (selection env); reflexivity.
Qed.

#[local] Hint Resolve keeps_lock_execute_applescript keeps_lock_improve_text : lock.

Lemma keeps_lock_get_selected_text : keeps_lock (get_selected_text env).
Proof.
  unfold get_selected_text, pasteboard_string, pasteboard_replace.
  repeat keeps_lock_step.
Qed.

Lemma keeps_lock_replace_selected_text (new_text : pystr) :
  keeps_lock (replace_selected_text env new_text).
Proof.
  unfold replace_selected_text, pasteboard_string, pasteboard_replace.
  repeat keeps_lock_step.
Qed.

Lemma keeps_lock_show_notification (title message : string) :
  keeps_lock (show_notification env title message).
Proof. unfold show_notification. repeat keeps_lock_step. Qed.

#[local] Hint Resolve keeps_lock_get_selected_text
  keeps_lock_replace_selected_text keeps_lock_show_notification : lock.

Lemma keeps_lock_notify (message : string) : keeps_lock (notify env config message).
Proof. unfold notify. repeat keeps_lock_step. Qed.

#[local] Hint Resolve keeps_lock_notify : lock.

(** The lock stays as it is from the first statement of the [try] block
    to the last statement of the [except] block. *)
Lemma keeps_lock_hotkey_body (mode : string) :
  keeps_lock (try_except (hotkey_body env config c mode)
                         (fun _ => notify env config "An error occurred")).
Proof. unfold hotkey_body. repeat keeps_lock_step. Qed.

Lemma process_request_releases (mode : string) (w : World) :
  lock_held (snd (process_request env config c mode w)) = false.
Proof.
  unfold process_request, try_finally.
  destruct (try_except _ _ w). reflexivity.
Qed.

End Lock.

Lemma lock_acquire_refused (w w' : World) :
  lock_acquire_nonblocking w = (Ok false, w') -> lock_held w = true /\ w' = w.
Proof.
  unfold lock_acquire_nonblocking.
  destruct (lock_held w); intros H; inversion H; auto.
Qed.

Lemma lock_acquire_granted (w w' : World) :
  lock_acquire_nonblocking w = (Ok true, w') ->
  lock_held w = false /\ w' = set_lock_held true w.
Proof.
  unfold lock_acquire_nonblocking.
  destruct (lock_held w); intros H; inversion H; auto.
Qed.

Section Stages.

Variable env : Env.
Variable config : dict.
Variable c : GeminiClient.
Variable mode : string.

Let handler : exn -> M unit := fun _ => notify env config "An error occurred".

Lemma run_finally (n : nat) (outcome : res unit) (w : World) :
  (1 <= n)%nat ->
  run_thread env config c n mode (AtFinally outcome) w = (AtDone outcome, lock_release w).
Proof.
  intros Hn. destruct n as [|n]; [lia|]. simpl. destruct n; reflexivity.
Qed.

Lemma run_except (n : nat) (w : World) :
  (2 <= n)%nat ->
  run_thread env config c n mode AtExcept w =
  finish (notify env config "An error occurred" w).
Proof.
  intros Hn. destruct n as [|n]; [lia|].
  cbn [run_thread thread_step].
  destruct (notify env config "An error occurred" w) as [outcome w'].
  rewrite run_finally by lia. reflexivity.
Qed.

(** One stage of the [try] block followed by the rest of the block. *)
Lemma run_stage {A} (m : M A) (next : A -> pc) (k : A -> M unit) (p : pc) (n : nat) :
  thread_step env config c mode p = stage m next ->
  in_flight p = true ->
  (2 <= n)%nat ->
  (forall a w, run_thread env config c n mode (next a) w =
               finish (try_except (k a) handler w)) ->
  forall w, run_thread env config c (S n) mode p w =
            finish (try_except (bind m k) handler w).
Proof.
  intros Hstep Hp Hn Hnext w.
  assert (E : run_thread env config c (S n) mode p w =
              let (p', w') := thread_step env config c mode p w in
              run_thread env config c n mode p' w').
  { destruct p; try reflexivity; discriminate. }
  rewrite E, Hstep. unfold stage, try_except, bind.
  destruct (m w) as [[a|e] w1].
  - rewrite Hnext. reflexivity.
  - now rewrite run_except.
Qed.

Lemma run_report (n : nat) (what : report) (w : World) :
  (3 <= n)%nat ->
  run_thread env config c n mode (AtReport what) w =
  finish (try_except (report_action env config mode what) handler w).
Proof.
  intros Hn. destruct n as [|n]; [lia|].
  cbn [run_thread thread_step]. unfold stage, try_except.
  destruct (report_action env config mode what w) as [[[]|e] w1].
  - now rewrite run_finally by lia.
  - now rewrite run_except by lia.
Qed.

Lemma run_replace (n : nat) (improved : pystr) (w : World) :
  (4 <= n)%nat ->
  run_thread env config c n mode (AtReplace improved) w =
  finish (try_except
            (success <- replace_selected_text env improved ;;
             if success : bool then report_action env config mode TextImproved
             else report_action env config mode FailedToReplace)
            handler w).
Proof.
  intros Hn. destruct n as [|n]; [lia|].
  apply (run_stage (replace_selected_text env improved)
           (fun success : bool =>
              if success then AtReport TextImproved else AtReport FailedToReplace));
    try reflexivity; try lia.
  intros success w'. destruct success; apply run_report; lia.
Qed.

Lemma run_improve (n : nat) (text : pystr) (w : World) :
  (5 <= n)%nat ->
  run_thread env config c n mode (AtImprove text) w =
  finish (try_except
            (improved_text <- improve_text env c text mode ;;
             if opt_truthy improved_text then
               success <- replace_selected_text env
                            (match improved_text with Some t => t | None => [] end) ;;
               if success : bool then report_action env config mode TextImproved
               else report_action env config mode FailedToReplace
             else report_action env config mode FailedToImprove)
            handler w).
Proof.
  intros Hn. destruct n as [|n]; [lia|].
  apply (run_stage (improve_text env c text mode)
           (fun improved_text =>
              match improved_text with
              | Some t => if str_truthy t then AtReplace t else AtReport FailedToImprove
              | None => AtReport FailedToImprove
              end));
    try reflexivity; try lia.
  intros improved w'. destruct improved as [t|]; simpl opt_truthy.
  - destruct (str_truthy t); [apply run_replace | apply run_report]; lia.
  - apply run_report. lia.
Qed.

Lemma run_processing (n : nat) (w : World) :
  (7 <= n)%nat ->
  run_thread env config c n mode AtProcessing w =
  finish (try_except (hotkey_body env config c mode) handler w).
Proof.
  intros Hn. destruct n as [|n]; [lia|].
  apply (run_stage (notify env config ("Processing (" ++ mode ++ ")..."))
           (fun _ => AtCapture));
    try reflexivity; try lia.
  intros _ w1. destruct n as [|n]; [lia|].
  apply (run_stage (get_selected_text env)
           (fun selected_text =>
              match selected_text with
              | Some text =>
                  if str_truthy text then AtImprove text else AtReport NoTextSelected
              | None => AtReport NoTextSelected
              end));
    try reflexivity; try lia.
  intros selected w2. destruct selected as [text|].
  - destruct (str_truthy text); [apply run_improve | apply run_report]; lia.
  - apply run_report. lia.
Qed.

(** Run alone, the staged callback is [handle_hotkey]. *)
Lemma run_thread_handle_hotkey (w : World) :
  run_thread env config c 8 mode AtAcquire w =
  (AtDone (fst (handle_hotkey env config c mode w)),
   snd (handle_hotkey env config c mode w)).
Proof.
  assert (E : run_thread env config c 8 mode AtAcquire w =
              if lock_held w then (AtDone (Ok tt), w)
              else run_thread env config c 7 mode AtProcessing (set_lock_held true w)).
  { change (run_thread env config c 8 mode AtAcquire w)
      with (let (p', w') := thread_step env config c mode AtAcquire w in
            run_thread env config c 7 mode p' w').
    unfold thread_step, lock_acquire_nonblocking.
    destruct (lock_held w); reflexivity. }
  rewrite E. unfold handle_hotkey, bind, lock_acquire_nonblocking.
  destruct (lock_held w).
  - reflexivity.
  - rewrite run_processing by lia.
    unfold process_request, try_finally, finish.
    destruct (try_except (hotkey_body env config c mode) _ (set_lock_held true w)).
    reflexivity.
Qed.

Lemma keeps_lock_report_action (what : report) :
  keeps_lock (report_action env config mode what).
Proof.
  pose proof (keeps_lock_notify env config) as Hn.
  pose proof (keeps_lock_show_notification env) as Hs.
  destruct what; simpl; auto.
  repeat keeps_lock_step.
Qed.

Lemma stage_in_flight {A} (m : M A) (next : A -> pc) (w : World) :
  keeps_lock m ->
  (forall a, in_flight (next a) = true) ->
  in_flight (fst (stage m next w)) = true /\
  lock_held (snd (stage m next w)) = lock_held w.
Proof.
  intros Hm Hnext. unfold stage. specialize (Hm w).
  destruct (m w) as [[a|e] w1]; simpl in *; auto.
Qed.

(** Between the acquisition and the [finally] clause a callback stays in
    flight and the lock stays as it is. *)
Lemma thread_step_in_flight (p : pc) (w : World) :
  in_flight p = true ->
  (forall outcome, p <> AtFinally outcome) ->
  in_flight (fst (thread_step env config c mode p w)) = true /\
  lock_held (snd (thread_step env config c mode p w)) = lock_held w.
Proof.
  intros Hp Hnot. destruct p; try discriminate; cbn [thread_step].
  - apply stage_in_flight; [apply keeps_lock_notify | reflexivity].
  - apply stage_in_flight; [apply keeps_lock_get_selected_text|].
    intros [text|]; [destruct (str_truthy text)|]; reflexivity.
  - apply stage_in_flight; [apply keeps_lock_improve_text|].
    intros [t|]; [destruct (str_truthy t)|]; reflexivity.
  - apply stage_in_flight; [apply keeps_lock_replace_selected_text|].
    intros []; reflexivity.
  - apply stage_in_flight; [apply keeps_lock_report_action | reflexivity].
  - pose proof (keeps_lock_notify env config "An error occurred" w) as Hn.
    destruct (notify env config "An error occurred" w). auto.
  - exfalso. now apply (Hnot outcome).
Qed.

End Stages.

Lemma running_app (l l' : list (string * pc)) :
  running (l ++ l') = (running l + running l')%nat.
Proof. unfold running. now rewrite filter_app, length_app. Qed.

Lemma running_cons (mode : string) (p : pc) (l : list (string * pc)) :
  running ((mode, p) :: l) = ((if in_flight p then 1 else 0) + running l)%nat.
Proof. unfold running. simpl. destruct (in_flight p); reflexivity. Qed.

Lemma tstep_keeps_exclusion (env : Env) (config : dict) (c : GeminiClient)
      (s s' : Threads) :
  (running (pool s) <= 1)%nat /\
  (lock_held (shared s) = true <-> running (pool s) = 1%nat) ->
  tstep env config c s s' ->
  (running (pool s') <= 1)%nat /\
  (lock_held (shared s') = true <-> running (pool s') = 1%nat).
Proof.
  intros [IHle IHlock] Hstep.
  destruct Hstep as [mode s | mode p p' before after s w' Hpool Hstep]; simpl.
  - rewrite running_app.
    change (running [(mode, AtAcquire)]) with 0%nat. rewrite Nat.add_0_r.
    split; assumption.
  - rewrite Hpool, running_app, running_cons in IHle, IHlock.
    rewrite running_app, running_cons.
    set (rb := running before) in *. set (ra := running after) in *.
    destruct p.
    + (* the lock test *)
      unfold thread_step, lock_acquire_nonblocking in Hstep.
      destruct (lock_held (shared s)) eqn:Hl; inversion Hstep; subst; simpl in *.
      * rewrite Hl. split; assumption.
      * assert (Hzero : (rb + ra)%nat <> 1%nat).
        { intros E. apply IHlock in E. discriminate. }
        split; [lia|]. split; [lia | reflexivity].
    + destruct (thread_step_in_flight env config c mode AtProcessing (shared s) eq_refl)
        as [Hin Hl]; [discriminate|].
      rewrite Hstep in Hin, Hl. simpl in Hin, Hl, IHle, IHlock. rewrite Hin, Hl.
      split; assumption.
    + destruct (thread_step_in_flight env config c mode AtCapture (shared s) eq_refl)
        as [Hin Hl]; [discriminate|].
      rewrite Hstep in Hin, Hl. simpl in Hin, Hl, IHle, IHlock. rewrite Hin, Hl.
      split; assumption.
    + destruct (thread_step_in_flight env config c mode (AtImprove text) (shared s) eq_refl)
        as [Hin Hl]; [discriminate|].
      rewrite Hstep in Hin, Hl. simpl in Hin, Hl, IHle, IHlock. rewrite Hin, Hl.
      split; assumption.
    + destruct (thread_step_in_flight env config c mode (AtReplace improved) (shared s) eq_refl)
        as [Hin Hl]; [discriminate|].
      rewrite Hstep in Hin, Hl. simpl in Hin, Hl, IHle, IHlock. rewrite Hin, Hl.
      split; assumption.
    + destruct (thread_step_in_flight env config c mode (AtReport what) (shared s) eq_refl)
        as [Hin Hl]; [discriminate|].
      rewrite Hstep in Hin, Hl. simpl in Hin, Hl, IHle, IHlock. rewrite Hin, Hl.
      split; assumption.
    + destruct (thread_step_in_flight env config c mode AtExcept (shared s) eq_refl)
        as [Hin Hl]; [discriminate|].
      rewrite Hstep in Hin, Hl. simpl in Hin, Hl, IHle, IHlock. rewrite Hin, Hl.
      split; assumption.
    + (* the finally clause *)
      cbn [thread_step] in Hstep. inversion Hstep; subst. simpl in *.
      split; [lia|]. split; [discriminate | lia].
    + (* a callback that is over *)
      cbn [thread_step] in Hstep. inversion Hstep; subst. simpl in *.
      split; assumption.
Qed.

(** C2.  (1) A trigger that finds the lock held is dropped: its first
    stage ends the callback and leaves the world as it was, so nothing
    is captured, sent or pasted.  (2) A trigger that finds the lock free
    takes it, without blocking, in its first stage.  (3) From there to
    the [finally] clause every stage leaves the callback in flight and
    the lock held; the [finally] clause releases the lock, whatever the
    outcome, an escaping exception included.  (4) Run alone, these
    stages are [handle_hotkey]; so after [handle_hotkey] the lock is
    free.  (5) However the stages of the callbacks of any number of
    triggers are interleaved, at most one callback is in flight, and the
    lock is held exactly while one is. *)
Theorem handle_hotkey_mutual_exclusion (env : Env) (config : dict) (c : GeminiClient) :
  (forall mode w,
      lock_held w = true ->
      thread_step env config c mode AtAcquire w = (AtDone (Ok tt), w) /\
      handle_hotkey env config c mode w = (Ok tt, w)) /\
  (forall mode w,
      lock_held w = false ->
      thread_step env config c mode AtAcquire w = (AtProcessing, set_lock_held true w)) /\
  (forall mode p w,
      in_flight p = true ->
      (forall outcome, p <> AtFinally outcome) ->
      in_flight (fst (thread_step env config c mode p w)) = true /\
      lock_held (snd (thread_step env config c mode p w)) = lock_held w) /\
  (forall mode outcome w,
      thread_step env config c mode (AtFinally outcome) w =
        (AtDone outcome, set_lock_held false w)) /\
  (forall mode w,
      run_thread env config c 8 mode AtAcquire w =
        (AtDone (fst (handle_hotkey env config c mode w)),
         snd (handle_hotkey env config c mode w)) /\
      (lock_held w = false ->
       lock_held (snd (handle_hotkey env config c mode w)) = false)) /\
  (forall s,
      treachable env config c s ->
      (running (pool s) <= 1)%nat /\
      (lock_held (shared s) = true <-> running (pool s) = 1%nat)).
Proof.
  split; [|split; [|split; [|split; [|split]]]].
  - intros mode w H. unfold thread_step, handle_hotkey, lock_acquire_nonblocking, bind.
    rewrite H. auto.
  - intros mode w H. unfold thread_step, lock_acquire_nonblocking. now rewrite H.
  - intros mode p w. apply thread_step_in_flight.
  - intros mode outcome w. reflexivity.
  - intros mode w. split; [apply run_thread_handle_hotkey|].
    intros H. unfold handle_hotkey, lock_acquire_nonblocking, bind.
    rewrite H. apply process_request_releases.
  - intros s Hs.
    induction Hs as [w Hw | s s' Hs IH Hstep].
    + simpl. split; [unfold running; simpl; lia|]. rewrite Hw.
      split; [discriminate | unfold running; simpl; discriminate].
    + now apply (tstep_keeps_exclusion env config c s s').
Qed.

(** Two triggers in a row, then the first callback stage by stage: the
    second trigger is dropped while the first is in flight. *)
Lemma handle_hotkey_mutual_exclusion_witness :
  let env := mkEnv (fun _ => Responds [111; 107]%N) (fun _ => true)
                   (Some [104; 105]%N) in
  let c := mkClient 50 3 in
  let idle := mkWorld 100 [] 0 0 None [] false in
  let busy := mkWorld 100 [] 0 0 None [] true in
  thread_step env DEFAULT_CONFIG c "formal" AtAcquire busy = (AtDone (Ok tt), busy) /\
  thread_step env DEFAULT_CONFIG c "grammar_fix" AtAcquire idle = (AtProcessing, busy) /\
  lock_held (snd (handle_hotkey env DEFAULT_CONFIG c "grammar_fix" idle)) = false /\
  (running [("grammar_fix"%string, AtProcessing); ("formal"%string, AtDone (Ok tt))] <= 1)%nat.
Proof.
  intros env c idle busy.
  destruct (handle_hotkey_mutual_exclusion env DEFAULT_CONFIG c)
    as (Hdrop & Htake & _ & _ & Hrun & Hinv).
  split; [|split; [|split]].
  - apply (Hdrop "formal"%string busy). reflexivity.
  - apply (Htake "grammar_fix"%string idle). reflexivity.
  - apply (Hrun "grammar_fix"%string idle). reflexivity.
  - apply (Hinv (mkThreads busy [("grammar_fix"%string, AtProcessing);
                                 ("formal"%string, AtDone (Ok tt))])).
    apply (treachable_step env DEFAULT_CONFIG c
             (mkThreads busy [("grammar_fix"%string, AtProcessing);
                              ("formal"%string, AtAcquire)])).
    + apply (treachable_step env DEFAULT_CONFIG c
               (mkThreads busy [("grammar_fix"%string, AtProcessing)])).
      * apply (treachable_step env DEFAULT_CONFIG c
                 (mkThreads idle [("grammar_fix"%string, AtAcquire)])).
        -- apply (treachable_step env DEFAULT_CONFIG c (mkThreads idle [])).
           ++ apply treachable_idle. reflexivity.
           ++ apply (tstep_trigger env DEFAULT_CONFIG c "grammar_fix"%string
                                   (mkThreads idle [])).
        -- apply (tstep_run env DEFAULT_CONFIG c "grammar_fix"%string
                             AtAcquire AtProcessing [] []
                             (mkThreads idle [("grammar_fix"%string, AtAcquire)]) busy);
             reflexivity.
      * apply (tstep_trigger env DEFAULT_CONFIG c "formal"%string
                             (mkThreads busy [("grammar_fix"%string, AtProcessing)])).
    + apply (tstep_run env DEFAULT_CONFIG c "formal"%string
                       AtAcquire (AtDone (Ok tt))
                       [("grammar_fix"%string, AtProcessing)] []
                       (mkThreads busy [("grammar_fix"%string, AtProcessing);
                                        ("formal"%string, AtAcquire)]) busy);
        reflexivity.
Defined.

(** Two triggers with no delay between them, then the end of the first
    request: the second trigger changes nothing, one provider call is
    made, the improved text is pasted and the lock is free at the end. *)
Example two_triggers_one_rewrite :
  let env := mkEnv (fun _ => Responds [111; 107]%N) (fun _ => true)
                   (Some [104; 105]%N) in
  let c := mkClient 50 3 in
  let w0 := mkWorld 100 [] 0 0 None [] false in
  let w1 := snd (lock_acquire_nonblocking w0) in
  let w2 := snd (handle_hotkey env DEFAULT_CONFIG c "formal" w1) in
  let w3 := snd (process_request env DEFAULT_CONFIG c "grammar_fix" w2) in
  w2 = w1 /\
  api_calls w3 = 1%nat /\
  In (EPasted (Some [111; 107]%N)) (trace w3) /\
  lock_held w3 = false.
Proof. vm_compute. intuition. Qed.

(** An exception that escapes: with [ui] set to a scalar the test for
    notifications raises in the [try] block and again in the [except]
    block; the callback ends with that exception and the lock is free. *)
Example escaping_exception_releases_lock :
  let env := mkEnv (fun _ => Raises) (fun _ => true) (Some [104; 105]%N) in
  let config := _merge_with_defaults [("ui"%string, VNone)] DEFAULT_CONFIG in
  let w := mkWorld 100 [] 0 0 None [] false in
  fst (handle_hotkey env config (mkClient 50 3) "formal" w) = Raise AttributeError /\
  lock_held (snd (handle_hotkey env config (mkClient 50 3) "formal" w)) = false.
Proof. vm_compute. auto. Qed.

(** ** [GeminiClient._check_rate_limit]: the quota over time *)

Lemma discard_old_split (now : Q) (times : list Q) :
  exists dropped,
    times = dropped ++ discard_old now times /\
    Forall (fun t => t + 60 < now)%Q dropped.
Proof.
  induction times as [|t rest IH]; simpl.
  - exists []. auto.
  - destruct (Qlt_le_dec 60 (now - t)) as [Hlt|Hle].
    + destruct IH as (dropped & Heq & Hall).
      exists (t :: dropped). split.
      * simpl. now rewrite <- Heq.
      * constructor; [lra | assumption].
    + exists []. auto.
Qed.

Lemma discard_old_length (now : Q) (times : list Q) :
  (List.length (discard_old now times) <= List.length times)%nat.
Proof.
  induction times as [|t rest IH]; simpl; auto.
  destruct (Qlt_le_dec 60 (now - t)); simpl; lia.
Qed.

Lemma deque_append_room (maxlen : Z) (x : Q) (times : list Q) :
  Z.of_nat (List.length times) < maxlen ->
  deque_append maxlen x times = times ++ [x].
Proof.
  intros H. unfold deque_append. rewrite length_app. simpl.
  replace (List.length times + 1 - Z.to_nat maxlen)%nat with 0%nat by lia.
  reflexivity.
Qed.

Lemma deque_append_full (maxlen : Z) (x oldest : Q) (rest : list Q) :
  Z.of_nat (List.length (oldest :: rest)) = maxlen ->
  deque_append maxlen x (oldest :: rest) = rest ++ [x].
Proof.
  intros H. unfold deque_append.
  replace (List.length ((oldest :: rest) ++ [x]) - Z.to_nat maxlen)%nat with 1%nat.
  - reflexivity.
  - rewrite length_app. subst maxlen. rewrite Nat2Z.id. simpl. lia.
Qed.

Lemma in_window_app (T : Q) (l l' : list Q) :
  in_window T (l ++ l') = (in_window T l + in_window T l')%nat.
Proof.
  induction l as [|t r IH]; simpl; auto.
  destruct (Qlt_le_dec (T - 60) t); [destruct (Qlt_le_dec T t)|]; simpl; lia.
Qed.

Lemma in_window_le_length (T : Q) (l : list Q) :
  (in_window T l <= List.length l)%nat.
Proof.
  induction l as [|t r IH]; simpl; auto.
  destruct (Qlt_le_dec (T - 60) t); [destruct (Qlt_le_dec T t)|]; simpl; lia.
Qed.

Lemma in_window_too_old (T : Q) (l : list Q) :
  Forall (fun t => t + 60 <= T)%Q l -> in_window T l = 0%nat.
Proof.
  induction 1 as [|t r Ht _ IH]; simpl; auto.
  destruct (Qlt_le_dec (T - 60) t); [lra | assumption].
Qed.

Lemma limiter_inv_init (c : GeminiClient) (w : World) :
  0 < requests_per_minute c ->
  request_times w = [] ->
  limiter_inv c w [].
Proof.
  intros Hpos Hnil. split.
  - exists []. rewrite Hnil. auto.
  - rewrite Hnil. simpl. lia.
  - intros T. simpl. lia.
Qed.

(** Issuing the stamp [s] keeps the invariant when everything that has
    left the record is at least 60 seconds older than [s] and the record
    had room for one more entry. *)
Lemma limiter_inv_extend (c : GeminiClient) (w' : World)
      (log old kept : list Q) (s : Q) :
  log = old ++ kept ->
  Forall (fun t => t + 60 <= s)%Q old ->
  Z.of_nat (List.length kept) < requests_per_minute c ->
  (forall T, Z.of_nat (in_window T log) <= requests_per_minute c) ->
  request_times w' = kept ++ [s] ->
  clock w' = s ->
  limiter_inv c w' (log ++ [s]).
Proof.
  intros Hlog Hold Hlen Hquota Htimes Hclock. split.
  - exists old. rewrite Htimes, Hclock, Hlog, app_assoc. auto.
  - rewrite Htimes, length_app. simpl. lia.
  - intros T. rewrite in_window_app. simpl.
    destruct (Qlt_le_dec (T - 60) s) as [Hlo|Hlo];
      [destruct (Qlt_le_dec T s) as [Hhi|Hhi]|];
      try (specialize (Hquota T); lia).
    rewrite Hlog, in_window_app.
    rewrite (in_window_too_old T old).
    + pose proof (in_window_le_length T kept). lia.
    + eapply Forall_impl; [|exact Hold]. simpl. intros t Ht. lra.
Qed.

Lemma limiter_inv_step (c : GeminiClient) (w : World) (log : list Q) (gap : Q) :
  0 < requests_per_minute c ->
  (0 <= gap)%Q ->
  limiter_inv c w log ->
  let w0 := set_clock (clock w + gap)%Q w in
  let w' := limiter_world c w0 (limiter_wait c w0) in
  limiter_inv c w' (log ++ [clock w']).
Proof.
  intros Hpos Hgap [(old & Hlog & Hold) Hb Hq] w0 w'.
  subst w'. unfold limiter_wait, limiter_world.
  change (request_times w0) with (request_times w).
  change (clock w0) with (clock w + gap)%Q.
  set (now := (clock w + gap)%Q).
  destruct (discard_old_split now (request_times w)) as (dropped & Hsplit & Hdropped).
  pose proof (discard_old_length now (request_times w)) as Hlen.
  set (times := discard_old now (request_times w)) in *.
  assert (Hold' : Forall (fun t => t + 60 <= now)%Q (old ++ dropped)).
  { apply Forall_app. split.
    - eapply Forall_impl; [|exact Hold]. simpl. intros t Ht. unfold now. lra.
    - eapply Forall_impl; [|exact Hdropped]. simpl. intros t Ht. lra. }
  assert (Hlog' : log = (old ++ dropped) ++ times).
  { rewrite Hlog, Hsplit at 1. now rewrite app_assoc. }
  destruct (requests_per_minute c <=? Z.of_nat (List.length times)) eqn:E.
  - apply Z.leb_le in E.
    destruct times as [|oldest rest] eqn:D; [simpl in E; lia|].
    assert (Hfull : Z.of_nat (List.length (oldest :: rest)) = requests_per_minute c) by lia.
    assert (Hlog'' : log = ((old ++ dropped) ++ [oldest]) ++ rest).
    { rewrite Hlog'. rewrite <- !app_assoc. reflexivity. }
    assert (Hrest : Z.of_nat (List.length rest) < requests_per_minute c).
    { simpl in Hfull. lia. }
    destruct (Qlt_le_dec 0 (60 - (now - oldest))) as [Hwait|Hwait]; simpl clock.
    + apply (limiter_inv_extend c _ log ((old ++ dropped) ++ [oldest]) rest); auto.
      * apply Forall_app. split.
        -- eapply Forall_impl; [|exact Hold']. simpl. intros t Ht. lra.
        -- constructor; [lra | constructor].
      * simpl. now apply deque_append_full.
    + apply (limiter_inv_extend c _ log ((old ++ dropped) ++ [oldest]) rest); auto.
      * apply Forall_app. split.
        -- exact Hold'.
        -- constructor; [lra | constructor].
      * simpl. now apply deque_append_full.
  - apply Z.leb_gt in E. simpl clock.
    apply (limiter_inv_extend c _ log (old ++ dropped) times); auto.
    simpl. now apply deque_append_room.
Qed.

(** The limiter never raises on a client with a positive quota, and the
    quota holds over the whole log. *)
Lemma issued_quota (c : GeminiClient) (gaps : list Q) :
  0 < requests_per_minute c ->
  Forall (fun g => 0 <= g)%Q gaps ->
  forall (w : World) (log : list Q),
    limiter_inv c w log ->
    List.length (issued c gaps w) = List.length gaps /\
    fst (run_limiter c gaps w) = Ok tt /\
    forall T, Z.of_nat (in_window T (log ++ issued c gaps w)) <= requests_per_minute c.
Proof.
  intros Hpos Hgaps. induction Hgaps as [|gap rest Hgap _ IH]; intros w log Hinv.
  - simpl. rewrite app_nil_r. repeat split; auto. apply (inv_quota _ _ _ Hinv).
  - simpl. rewrite (check_rate_limit_run c _ Hpos).
    pose proof (limiter_inv_step c w log gap Hpos Hgap Hinv) as Hstep.
    simpl in Hstep.
    destruct (IH _ _ Hstep) as (Hl & Hr & Hw).
    repeat split.
    + simpl. now rewrite Hl.
    + exact Hr.
    + intros T. specialize (Hw T). rewrite <- app_assoc in Hw. exact Hw.
Qed.

(** X22.  The stamps of the limiter.  (1) When, after the entries more
    than 60 seconds old have been dropped from the front, the record
    holds [requests_per_minute] entries, [_check_rate_limit] returns
    normally; if [60 - (now - oldest)] is positive it has slept exactly
    that long, otherwise it has not slept; the stamp it appends is the
    time after the wait, and the oldest entry has left the record.  In
    [improve_text] this happens before the first provider call.
    (2) From a fresh client with a positive quota and whatever the time
    between calls, every call of the limiter returns and no window
    (T - 60, T] holds more than [requests_per_minute] of its stamps.
    A stamp is left once per accepted call of [improve_text]; the
    provider calls of the retry loop are not stamped. *)
Theorem check_rate_limit_enforces_quota (c : GeminiClient) :
  (forall (w : World) (oldest : Q) (rest : list Q),
      discard_old (clock w) (request_times w) = oldest :: rest ->
      Z.of_nat (List.length (oldest :: rest)) = requests_per_minute c ->
      exists w',
        _check_rate_limit c w = (Ok tt, w') /\
        request_times w' = rest ++ [clock w'] /\
        ((0 < 60 - (clock w - oldest))%Q ->
         trace w' = trace w ++ [ESleep (60 - (clock w - oldest))%Q] /\
         clock w' = (clock w + (60 - (clock w - oldest)))%Q) /\
        ((60 - (clock w - oldest) <= 0)%Q ->
         trace w' = trace w /\ clock w' = clock w) /\
        (forall env text mode template,
            blank_input text = false ->
            prompt_template mode PROMPTS = Some template ->
            improve_text env c text mode w =
            retry_loop env c (format_prompt template text)
                       (py_range (max_retries c)) w')) /\
  (forall (w : World) (gaps : list Q) (T : Q),
      0 < requests_per_minute c ->
      request_times w = [] ->
      Forall (fun g => 0 <= g)%Q gaps ->
      fst (run_limiter c gaps w) = Ok tt /\
      List.length (issued c gaps w) = List.length gaps /\
      Z.of_nat (in_window T (issued c gaps w)) <= requests_per_minute c).
Proof.
  split.
  - intros w oldest rest Hdisc Hfull.
    assert (Hpos : 0 < requests_per_minute c) by (simpl in Hfull; lia).
    exists (limiter_world c w (limiter_wait c w)).
    split; [now apply check_rate_limit_run|].
    assert (Himprove :
              forall env text mode template,
                blank_input text = false ->
                prompt_template mode PROMPTS = Some template ->
                improve_text env c text mode w =
                retry_loop env c (format_prompt template text)
                           (py_range (max_retries c))
                           (limiter_world c w (limiter_wait c w))).
    { intros env text mode template Hb Ht. unfold improve_text.
      rewrite Hb, Ht. unfold bind.
      now rewrite (check_rate_limit_run c w Hpos). }
    revert Himprove.
    unfold limiter_wait, limiter_world. rewrite Hdisc.
    replace (requests_per_minute c <=? Z.of_nat (List.length (oldest :: rest)))
      with true by (symmetry; apply Z.leb_le; lia).
    destruct (Qlt_le_dec 0 (60 - (clock w - oldest))) as [Hwait|Hwait];
      intros Himprove; simpl.
    + split; [now apply deque_append_full|].
      split; [auto|]. split; [intros; lra | exact Himprove].
    + split; [now apply deque_append_full|].
      split; [intros; lra|]. split; [auto | exact Himprove].
  - intros w gaps T Hpos Hnil Hgaps.
    destruct (issued_quota c gaps Hpos Hgaps w [] (limiter_inv_init c w Hpos Hnil))
      as (Hl & Hr & Hw).
    split; [exact Hr|]. split; [exact Hl|]. apply (Hw T).
Qed.

Lemma check_rate_limit_enforces_quota_witness :
  let c := mkClient 2 3 in
  let w := mkWorld 100 [] 0 0 None [30; 50; 70]%Q false in
  let fresh := mkWorld 100 [] 0 0 None [] false in
  (exists w',
      _check_rate_limit c w = (Ok tt, w') /\
      request_times w' = [70; (100 + (60 - (100 - 50)))]%Q /\
      trace w' = [ESleep (60 - (100 - 50))%Q]) /\
  Z.of_nat (in_window 100 (issued c [0; 0; 5; 0]%Q fresh)) <= 2.
Proof.
  intros c w fresh.
  destruct (check_rate_limit_enforces_quota c) as [Hone Hmany].
  split.
  - destruct (Hone w 50%Q [70%Q] eq_refl eq_refl)
      as (w' & Hrun & Htimes & Hsleep & _ & _).
    exists w'. split; [exact Hrun|].
    destruct (Hsleep eq_refl) as [Htrace Hclock].
    split; [|exact Htrace].
    rewrite Htimes, Hclock. reflexivity.
  - apply (Hmany fresh [0; 0; 5; 0]%Q 100%Q).
    + reflexivity.
    + reflexivity.
    + repeat constructor; discriminate.
Defined.

(** A run with quota 2: the third call waits for the first stamp to be 60
    seconds old. *)
Example issued_quota_two :
  issued (mkClient 2 3) [0; 10; 20]%Q (mkWorld 100 [] 0 0 None [] false)
  = [100 + 0; 100 + 0 + 10; 100 + 0 + 10 + 20 + (60 - (100 + 0 + 10 + 20 - (100 + 0)))]%Q.
Proof. reflexivity. Qed.

(** C1, where the code departs from it.  The limiter is consulted once
    per call of [improve_text], and every attempt of the retry loop
    sends a request of its own.  With a quota of one request per minute,
    three attempts allowed and a provider that returns an empty response
    each time, one call of [improve_text] on a fresh client leaves one
    stamp in the record and sends three requests at the same instant:
    three requests lie in one 60-second window. *)
Theorem retries_exceed_quota :
  let env := mkEnv (fun _ => Responds []) (fun _ => true) None in
  let c := mkClient 1 3 in
  let w := mkWorld 100 [] 0 0 None [] false in
  let w' := snd (improve_text env c [104; 105]%N "formal" w) in
  fst (improve_text env c [104; 105]%N "formal" w) = Ok None /\
  request_times w' = [100]%Q /\
  provider_calls (trace w') = 3%nat /\
  call_times (clock w) (trace w') = [100; 100; 100]%Q /\
  in_window 100 (call_times (clock w) (trace w')) = 3%nat /\
  requests_per_minute c < Z.of_nat (in_window 100 (call_times (clock w) (trace w'))).
Proof. vm_compute. repeat split. Qed.

(** The limiter stamps one request per call of [improve_text]; the
    attempts of the retry loop inside one call are not stamped. *)
Example attempts_within_one_request :
  let env := mkEnv (fun _ => Responds []) (fun _ => true) None in
  let w := mkWorld 100 [] 0 0 None [] false in
  let w' := snd (improve_text env (mkClient 1 3) [104; 105]%N "formal" w) in
  api_calls w' = 3%nat /\ List.length (request_times w') = 1%nat /\ delays (trace w') = [].
Proof. vm_compute. auto. Qed.

(** * Further properties of the code *)

(** ** [ConfigManager.get] on a merged configuration *)

Lemma config_get_find (path : list string) (default v : value) :
  config_get path default v =
  match config_find path v with Some x => x | None => default end.
Proof.
  revert v. induction path as [|key rest IH]; intros v; simpl; auto.
  destruct v; auto.
  destruct (dict_get key d); auto.
Qed.

Lemma wf_value_dict_get (d : dict) (key : string) (v : value) :
  wf_value (VDict d) -> dict_get key d = Some v -> wf_value v.
Proof.
  intros [_ Hall]. induction d as [|[k v'] r IH]; simpl; [discriminate|].
  destruct Hall as [Hv Hr].
  destruct (String.eqb key k).
  - intros H. inversion H. now subst.
  - now apply IH.
Qed.

Lemma wf_value_NoDup (d : dict) : wf_value (VDict d) -> NoDup (keys d).
Proof. intros [H _]. exact H. Qed.

Lemma config_find_scalar (path : list string) (v x : value) :
  is_dict v = false -> config_find path v = Some x -> path = [] /\ x = v.
Proof.
  destruct path as [|key rest]; simpl.
  - intros _ H. inversion H. auto.
  - destruct v; simpl; discriminate.
Qed.

Lemma dict_get_none_not_in (k : string) (d : dict) :
  dict_get k d = None -> ~ In k (keys d).
Proof.
  induction d as [|[k' v'] r IH]; simpl; [tauto|].
  destruct (String.eqb k k') eqn:E; [discriminate|].
  apply String.eqb_neq in E. intros H [Hk|Hk]; [congruence | now apply IH].
Qed.

Lemma merged_lookup (user defaults : dict) (key : string) (v : value) :
  NoDup (keys user) ->
  dict_get key user = Some v ->
  dict_get key (_merge_with_defaults user defaults) =
  Some (merged_entry _merge_with_defaults v (dict_get key defaults)).
Proof.
  intros Hnd Hget. rewrite merge_with_defaults_eq.
  now apply merge_items_present.
Qed.

Lemma merged_lookup_absent (user defaults : dict) (key : string) :
  dict_get key user = None ->
  dict_get key (_merge_with_defaults user defaults) = dict_get key defaults.
Proof.
  intros Hget. rewrite merge_with_defaults_eq.
  apply merge_items_absent. now apply dict_get_none_not_in.
Qed.

Lemma mentions_false_find (path : list string) (v : value) :
  mentions path v = false -> config_find path v = None.
Proof.
  revert v. induction path as [|key rest IH]; intros v; simpl; [discriminate|].
  destruct v; try discriminate.
  destruct (dict_get key d); auto.
Qed.

Lemma config_get_scalar (path : list string) (default v : value) :
  path <> [] -> is_dict v = false -> config_get path default v = default.
Proof.
  destruct path as [|key rest]; [congruence|].
  intros _ H. destruct v; simpl in *; auto. discriminate.
Qed.

(** X1.  In the configuration merged from a well-formed user document, a
    path that the user document maps to a scalar is mapped to that scalar:
    [get] returns the user's value at any depth, whatever the defaults
    hold there. *)
Theorem config_get_merged_user_leaf (path : list string) :
  forall (user defaults : dict) (default v : value),
    wf_value (VDict user) ->
    path <> [] ->
    config_find path (VDict user) = Some v ->
    is_dict v = false ->
    config_get path default (VDict (_merge_with_defaults user defaults)) = v.
Proof.
  induction path as [|key rest IH]; intros user defaults default v Hwf Hne Hfind Hleaf;
    [congruence|].
  simpl in Hfind. simpl.
  destruct (dict_get key user) as [v'|] eqn:Hk; [|discriminate].
  rewrite (merged_lookup user defaults key v' (wf_value_NoDup _ Hwf) Hk).
  pose proof (wf_value_dict_get user key v' Hwf Hk) as Hwf'.
  destruct v' as [| | | |vd| |];
    try (apply config_find_scalar in Hfind; [|reflexivity];
         destruct Hfind as [-> ->]; reflexivity).
  assert (Hrest : rest <> []).
  { intros ->. simpl in Hfind. inversion Hfind. subst. discriminate. }
  unfold merged_entry.
  destruct (dict_get key defaults) as [[| | | |rd| |]|];
    try (rewrite config_get_find, Hfind; reflexivity).
  now apply IH.
Qed.

Lemma config_get_merged_user_leaf_witness :
  let user := [("gemini"%string, VDict [("model"%string, VStr "gemini-pro"%string)]);
               ("ui"%string, VDict [("show_notifications"%string, VBool false)])] in
  config_get ["gemini"; "model"]%string VNone
             (VDict (_merge_with_defaults user DEFAULT_CONFIG)) = VStr "gemini-pro".
Proof.
  intros user.
  apply (config_get_merged_user_leaf ["gemini"; "model"]%string user DEFAULT_CONFIG).
  - simpl. repeat split; repeat constructor; simpl; intuition discriminate.
  - discriminate.
  - reflexivity.
  - reflexivity.
Defined.

(** X2.  A path about which the user document says nothing (it leaves the
    document at a missing key, every value before that being a mapping)
    is looked up in the merged configuration exactly as in the defaults:
    [get] returns the default table's value, or its own [default]
    argument where the table has none. *)
Theorem config_get_merged_default (path : list string) :
  forall (user defaults : dict) (default : value),
    wf_value (VDict user) ->
    mentions path (VDict user) = false ->
    config_get path default (VDict (_merge_with_defaults user defaults)) =
    config_get path default (VDict defaults).
Proof.
  induction path as [|key rest IH]; intros user defaults default Hwf Hm;
    [discriminate|].
  simpl in Hm. simpl.
  destruct (dict_get key user) as [v'|] eqn:Hk.
  - rewrite (merged_lookup user defaults key v' (wf_value_NoDup _ Hwf) Hk).
    pose proof (wf_value_dict_get user key v' Hwf Hk) as Hwf'.
    assert (Hrest : rest <> []) by (intros ->; simpl in Hm; discriminate).
    destruct v' as [| | | |vd| |];
      try (destruct rest; [congruence | simpl in Hm; discriminate]).
    unfold merged_entry.
    destruct (dict_get key defaults) as [[| | | |rd| |]|];
      try (rewrite config_get_find, (mentions_false_find rest _ Hm);
           rewrite ?config_get_scalar by (auto || reflexivity); reflexivity).
    now apply IH.
  - now rewrite (merged_lookup_absent user defaults key Hk).
Qed.

Lemma config_get_merged_default_witness :
  let user := [("gemini"%string, VDict [("model"%string, VStr "gemini-pro"%string)]);
               ("ui"%string, VDict [("show_notifications"%string, VBool false)])] in
  config_get ["gemini"; "max_retries"]%string VNone
             (VDict (_merge_with_defaults user DEFAULT_CONFIG)) =
  config_get ["gemini"; "max_retries"]%string VNone (VDict DEFAULT_CONFIG).
Proof.
  intros user.
  apply (config_get_merged_default ["gemini"; "max_retries"]%string user DEFAULT_CONFIG).
  - simpl. repeat split; repeat constructor; simpl; intuition discriminate.
  - reflexivity.
Defined.

(** ** [ConfigManager._merge_with_defaults]: the keys of the result *)

Lemma existsb_eqb_In (k : string) (l : list string) :
  existsb (String.eqb k) l = true <-> In k l.
Proof.
  rewrite existsb_exists. split.
  - intros (x & Hin & E). apply String.eqb_eq in E. now subst.
  - intros H. exists k. split; auto. apply String.eqb_refl.
Qed.

Lemma keys_dict_set (k : string) (v : value) (d : dict) :
  keys (dict_set k v d) =
  if existsb (String.eqb k) (keys d) then keys d else keys d ++ [k].
Proof.
  induction d as [|[k' v'] r IH]; simpl; auto.
  destruct (String.eqb k k') eqn:E; simpl.
  - reflexivity.
  - rewrite IH. destruct (existsb (String.eqb k) (keys r)); reflexivity.
Qed.

Lemma keys_merge_items (rec : dict -> dict -> dict) (items : list (string * value)) :
  forall result,
    NoDup (keys items) ->
    keys (merge_items rec items result) =
    keys result ++
    filter (fun k => negb (existsb (String.eqb k) (keys result))) (keys items).
Proof.
  induction items as [|[key v] rest IH]; intros result Hnd; simpl.
  - now rewrite app_nil_r.
  - inversion Hnd as [|? ? Hnotin Hnd']; subst.
    rewrite IH by assumption.
    assert (Hkeys : forall x,
               keys (match v with
                     | VDict vd =>
                         match dict_get key result with
                         | Some (VDict rd) => dict_set key (VDict (rec vd rd)) result
                         | _ => dict_set key v result
                         end
                     | _ => dict_set key v result
                     end) = x <-> keys (dict_set key v result) = x).
    { intros x. destruct v; try tauto.
      destruct (dict_get key result) as [[| | | |rd| |]|]; try tauto.
      now rewrite !keys_dict_set. }
    match goal with
    | |- keys ?m ++ _ = _ => replace (keys m) with (keys (dict_set key v result))
        by (symmetry; now apply Hkeys)
    end.
    rewrite keys_dict_set.
    destruct (existsb (String.eqb key) (keys result)) eqn:E; simpl.
    + reflexivity.
    + rewrite <- app_assoc. simpl. f_equal. f_equal.
      apply filter_ext_in. intros k Hk.
      rewrite existsb_app. simpl. rewrite orb_false_r.
      destruct (String.eqb k key) eqn:Ek.
      * apply String.eqb_eq in Ek. subst. tauto.
      * now rewrite orb_false_r.
Qed.

(** X3.  The merged configuration lists every key of the defaults, in the
    order of the default table, followed by the keys that only the user
    document has, in the order of the user document: merging drops no key
    and adds none of its own. *)
Theorem merge_with_defaults_keys (user defaults : dict) :
  NoDup (keys user) ->
  keys (_merge_with_defaults user defaults) =
  keys defaults ++
  filter (fun k => negb (existsb (String.eqb k) (keys defaults))) (keys user).
Proof.
  intros Hnd. rewrite merge_with_defaults_eq. now apply keys_merge_items.
Qed.

Lemma merge_with_defaults_keys_witness :
  keys (_merge_with_defaults
          [("theme"%string, VStr "dark"%string);
           ("ui"%string, VDict [("show_notifications"%string, VBool false)]);
           ("proxy"%string, VNone)]
          DEFAULT_CONFIG)
  = ["gemini"; "hotkeys"; "rate_limit"; "ui"; "logging"; "theme"; "proxy"]%string.
Proof.
  rewrite merge_with_defaults_keys.
  - reflexivity.
  - repeat constructor; simpl; intuition discriminate.
Defined.

(** ** What a validated configuration holds *)

(** X4.  A configuration that [_validate] accepts has a [gemini] mapping
    with an [api_key] entry that is true and not the placeholder, and
    [get_rate_limit] returns the validated quota: an integer from 1 to
    60, the boolean [True] (which Python compares as 1), a float greater
    than 0 and at most 60, or a NaN (for which both comparisons of
    [_validate] are false).  No quota of zero or less passes. *)
Theorem validate_ok_quota (config : dict) :
  _validate config = Ok tt ->
  (exists g k,
      dict_get "gemini" config = Some (VDict g) /\
      dict_get "api_key" g = Some k /\
      truthy k = true /\ is_placeholder k = false) /\
  (exists q,
      get_rate_limit config = Ok q /\
      ((exists n, q = VInt n /\ 1 <= n <= 60) \/
       q = VBool true \/
       (exists x, q = VFloat (Finite x) /\ (0 < x <= 60)%Q) \/
       q = VFloat NaN)).
Proof.
  unfold _validate, get_rate_limit, value_get, dict_get_default.
  destruct (dict_get "gemini" config) as [[| | | |g| |]|]; simpl; try discriminate.
  destruct (dict_get "api_key" g) as [k|] eqn:Hk; simpl; [|discriminate].
  destruct (truthy k) eqn:Ht; simpl; [|discriminate].
  destruct (is_placeholder k) eqn:Hp; simpl; [discriminate|].
  destruct (dict_get "rate_limit" config) as [[| | | |r| |]|]; simpl; try discriminate.
  destruct (dict_get "requests_per_minute" r) as [q|] eqn:Hq; simpl; [|discriminate].
  intros H. split.
  - exists g, k. auto.
  - exists q. split; [reflexivity|].
    destruct q as [|b|n| | |f|]; simpl in H; try discriminate.
    + destruct b; simpl in H; [|discriminate]. right; left. reflexivity.
    + destruct ((n <=? 0) || (60 <? n)) eqn:E; [discriminate|].
      apply orb_false_iff in E. destruct E as [E1 E2].
      apply Z.leb_gt in E1. apply Z.ltb_ge in E2.
      left. exists n. split; [reflexivity | lia].
    + destruct f as [x| | |]; simpl in H; try discriminate.
      * destruct (Qle_bool x (inject_Z 0)) eqn:E1; simpl in H; [discriminate|].
        destruct (Qle_bool x (inject_Z 60)) eqn:E2; simpl in H; [|discriminate].
        apply Qle_bool_iff in E2.
        assert (Hpos : ~ (x <= inject_Z 0)%Q).
        { intros Hle. apply Qle_bool_iff in Hle. congruence. }
        right; right; left. exists x. split; [reflexivity|].
        split; [apply Qnot_le_lt in Hpos; exact Hpos | exact E2].
      * right; right; right. reflexivity.
Qed.

Lemma validate_ok_quota_witness :
  let config := _merge_with_defaults
                  [("gemini"%string, VDict [("api_key"%string, VStr "k-123"%string)]);
                   ("rate_limit"%string,
                    VDict [("requests_per_minute"%string, VFloat (Finite (61 # 2)))])]
                  DEFAULT_CONFIG in
  exists q,
    get_rate_limit config = Ok q /\
    ((exists n, q = VInt n /\ 1 <= n <= 60) \/
     q = VBool true \/
     (exists x, q = VFloat (Finite x) /\ (0 < x <= 60)%Q) \/
     q = VFloat NaN).
Proof.
  intros config.
  exact (proj2 (validate_ok_quota config eq_refl)).
Defined.

(** A quota written [.nan] in the YAML document passes validation. *)
Example validate_accepts_nan :
  _validate (_merge_with_defaults
               [("gemini"%string, VDict [("api_key"%string, VStr "k-123"%string)]);
                ("rate_limit"%string,
                 VDict [("requests_per_minute"%string, VFloat NaN)])]
               DEFAULT_CONFIG) = Ok tt.
Proof. reflexivity. Qed.

(** ** [ConfigManager.load] *)

Lemma merged_section (user : dict) (section : string) (rd : dict) :
  wf_value (VDict user) ->
  dict_get section DEFAULT_CONFIG = Some (VDict rd) ->
  dict_get section (_merge_with_defaults user DEFAULT_CONFIG) = Some (VDict rd) \/
  (exists vd, dict_get section user = Some (VDict vd) /\ NoDup (keys vd) /\
              dict_get section (_merge_with_defaults user DEFAULT_CONFIG) =
              Some (VDict (_merge_with_defaults vd rd))) \/
  (exists v, is_dict v = false /\
             dict_get section (_merge_with_defaults user DEFAULT_CONFIG) = Some v).
Proof.
  intros Hwf Hd.
  destruct (dict_get section user) as [v|] eqn:Hu.
  - rewrite (merged_lookup user DEFAULT_CONFIG section v (wf_value_NoDup _ Hwf) Hu).
    rewrite Hd. destruct v as [| | | |vd| |]; simpl;
      try (right; right; eexists; split; [|reflexivity]; reflexivity).
    right; left. exists vd. split; [reflexivity|]. split; [|reflexivity].
    apply wf_value_NoDup. eapply wf_value_dict_get; eassumption.
  - left. now rewrite (merged_lookup_absent user DEFAULT_CONFIG section Hu).
Qed.

Lemma merged_keeps_default_key (vd rd : dict) (k : string) (x : value) :
  NoDup (keys vd) ->
  dict_get k rd = Some x ->
  dict_get k (_merge_with_defaults vd rd) <> None.
Proof.
  intros Hnd Hk.
  destruct (dict_get k vd) as [v|] eqn:Hv.
  - rewrite (merged_lookup vd rd k v Hnd Hv). discriminate.
  - rewrite (merged_lookup_absent vd rd k Hv), Hk. discriminate.
Qed.

(** X5.  After a successful [load] of a well-formed document, the
    [gemini] section of the configuration is a mapping that has all four
    entries the application reads from it by subscript ([api_key],
    [model], [max_retries], [timeout]), whether the user wrote them or
    not; and [self.config] is the configuration returned. *)
Theorem load_ok_gemini_entries (doc : value) (self_config : value)
        (config : dict) (stored : value) :
  wf_value doc ->
  load (FileDocument doc) self_config = (inr config, stored) ->
  stored = VDict config /\
  exists g,
    get_gemini_config config = VDict g /\
    forall k, In k ["api_key"; "model"; "max_retries"; "timeout"]%string ->
              dict_get k g <> None.
Proof.
  intros Hwf. unfold load, merge_document.
  destruct doc as [| | | |user| |]; try discriminate.
  destruct (_validate (_merge_with_defaults user DEFAULT_CONFIG)) as [[]|e] eqn:Hv;
    [|discriminate].
  intros H. inversion H; subst. split; [reflexivity|].
  unfold get_gemini_config, dict_get_default.
  destruct (merged_section user "gemini" _ Hwf eq_refl)
    as [Hg | [(vd & Hu & Hnd & Hg) | (v & Hs & Hg)]]; rewrite Hg.
  - eexists. split; [reflexivity|].
    intros k Hk. simpl in Hk.
    repeat (destruct Hk as [<-|Hk]; [discriminate|]). contradiction.
  - eexists. split; [reflexivity|].
    intros k Hk. simpl in Hk.
    repeat (destruct Hk as [<-|Hk];
            [eapply merged_keeps_default_key; [exact Hnd | reflexivity]|]).
    contradiction.
  - exfalso. unfold _validate, dict_get_default in Hv. rewrite Hg in Hv.
    destruct v; simpl in *; discriminate.
Qed.

Lemma load_ok_gemini_entries_witness :
  let doc := VDict [("gemini"%string, VDict [("api_key"%string, VStr "k-123"%string)])] in
  exists g,
    get_gemini_config (_merge_with_defaults
                         [("gemini"%string, VDict [("api_key"%string, VStr "k-123"%string)])]
                         DEFAULT_CONFIG) = VDict g /\
    forall k, In k ["api_key"; "model"; "max_retries"; "timeout"]%string ->
              dict_get k g <> None.
Proof.
  intros doc.
  refine (proj2 (load_ok_gemini_entries doc (VDict []) _ _ _ eq_refl)).
  simpl. repeat split; repeat constructor; simpl; intuition discriminate.
Defined.

(** X6.  [load] ends with [ValueError] for every document that is not a
    mapping (an empty file, which parses to [None], included) and for
    every well-formed mapping that says nothing about [gemini.api_key]:
    the key of the default table is empty, so the defaults alone never
    pass validation. *)
Theorem load_without_api_key_fails (doc : value) (self_config : value) :
  is_dict doc = false \/
  (wf_value doc /\ mentions ["gemini"; "api_key"]%string doc = false) ->
  fst (load (FileDocument doc) self_config) = inl LoadValueError.
Proof.
  intros [Hnd | [Hwf Hm]].
  - destruct doc; simpl in *; try reflexivity. discriminate.
  - destruct doc as [| | | |user| |]; try discriminate.
    unfold load, merge_document.
    assert (Hv : exists e, _validate (_merge_with_defaults user DEFAULT_CONFIG) = Raise e).
    { unfold _validate, dict_get_default. simpl in Hm.
      destruct (dict_get "gemini" user) as [v|] eqn:Hu.
      - rewrite (merged_lookup user DEFAULT_CONFIG "gemini" v (wf_value_NoDup _ Hwf) Hu).
        destruct v as [| | | |vd| |]; try discriminate.
        simpl merged_entry.
        destruct (dict_get "api_key" vd) as [x|] eqn:Hx; [discriminate|].
        unfold value_get, dict_get_default.
        rewrite (merged_lookup_absent vd _ "api_key" Hx). simpl. eauto.
      - rewrite (merged_lookup_absent user DEFAULT_CONFIG "gemini" Hu). simpl. eauto. }
    destruct Hv as [e ->]. reflexivity.
Qed.

Lemma load_without_api_key_fails_witness :
  fst (load (FileDocument VNone) (VDict [])) = inl LoadValueError /\
  fst (load (FileDocument
               (VDict [("gemini"%string, VDict [("model"%string, VStr "gemini-pro"%string)]);
                       ("rate_limit"%string, VDict [("requests_per_minute"%string, VInt 30)])]))
            (VDict [])) = inl LoadValueError.
Proof.
  split.
  - apply (load_without_api_key_fails VNone). left. reflexivity.
  - apply load_without_api_key_fails. right. split.
    + simpl. repeat split; repeat constructor; simpl; intuition discriminate.
    + reflexivity.
Defined.

(** ** [GeminiClient.improve_text]: any provider *)

Section AnyProvider.

Variable env : Env.
Variable c : GeminiClient.
Variable prompt : pystr.

(** One attempt, whatever the provider does. *)
Lemma attempt_once_outcome (attempt : Z) (w : World) :
  exists r w' evs,
    attempt_once env c prompt attempt w = (Ok r, w') /\
    trace w' = trace w ++ EGenerate prompt :: evs /\
    Forall (retry_event prompt) evs /\ provider_calls evs = 0%nat /\
    api_calls w' = S (api_calls w) /\
    request_times w' = request_times w /\
    clipboard w' = clipboard w /\
    (r = None \/
     exists answer, provider env (api_calls w) = Responds answer /\
                    answer <> [] /\ r = Some (strip answer)).
Proof.
  destruct (provider env (api_calls w)) as [|answer] eqn:Hp.
  - rewrite (attempt_once_raises env c prompt attempt w Hp).
    unfold backoff. destruct (attempt <? max_retries c - 1).
    + exists None, (slept (inject_Z (2 ^ attempt)) (called prompt w)),
             [ESleep (inject_Z (2 ^ attempt))].
      simpl. rewrite <- app_assoc. repeat split; auto.
      constructor; [right; eauto | constructor].
    + exists None, (called prompt w), []. simpl. repeat split; auto.
  - destruct answer as [|ch rest].
    + rewrite (attempt_once_empty env c prompt attempt w Hp).
      exists None, (called prompt w), []. simpl. repeat split; auto.
    + rewrite (attempt_once_success env c prompt attempt (ch :: rest) w Hp)
        by discriminate.
      exists (Some (strip (ch :: rest))), (called prompt w), [].
      simpl. repeat split; auto.
      right. exists (ch :: rest). repeat split; auto. discriminate.
Qed.

(** The whole loop, whatever the provider does. *)
Lemma retry_loop_outcome (attempts : list Z) :
  forall (w : World),
  exists r w' evs,
    retry_loop env c prompt attempts w = (Ok r, w') /\
    trace w' = trace w ++ evs /\
    Forall (retry_event prompt) evs /\
    api_calls w' = (api_calls w + provider_calls evs)%nat /\
    (provider_calls evs <= List.length attempts)%nat /\
    request_times w' = request_times w /\
    clipboard w' = clipboard w /\
    (r = None \/
     exists i answer, (api_calls w <= i < api_calls w')%nat /\
                      provider env i = Responds answer /\
                      answer <> [] /\ r = Some (strip answer)).
Proof.
  induction attempts as [|a rest IH]; intros w.
  - exists None, w, []. simpl. rewrite app_nil_r.
    repeat split; auto.
  - destruct (attempt_once_outcome a w)
      as (r1 & w1 & evs1 & E1 & Ht1 & Hev1 & Hp1 & Ha1 & Hr1 & Hc1 & Hres1).
    simpl. unfold bind. rewrite E1.
    destruct Hres1 as [-> | (answer & Hans & Hne & ->)].
    + destruct (IH w1) as (r & w' & evs & E & Ht & Hev & Ha & Hlen & Hr & Hc & Hres).
      exists r, w', (EGenerate prompt :: evs1 ++ evs).
      rewrite E. split; [reflexivity|].
      split; [rewrite Ht, Ht1, <- app_assoc; reflexivity|].
      split; [constructor; [left; reflexivity | apply Forall_app; auto]|].
      split; [simpl; rewrite provider_calls_app; lia|].
      split; [simpl; rewrite provider_calls_app; lia|].
      split; [congruence|]. split; [congruence|].
      destruct Hres as [-> | (i & answer & Hi & Hans & Hne & ->)]; [now left|].
      right. exists i, answer. repeat split; auto; lia.
    + exists (Some (strip answer)), w1, (EGenerate prompt :: evs1).
      split; [reflexivity|]. split; [exact Ht1|].
      split; [constructor; [left; reflexivity | exact Hev1]|].
      split; [simpl; lia|]. split; [simpl; lia|].
      split; [exact Hr1|]. split; [exact Hc1|].
      right. exists (api_calls w), answer. repeat split; auto; lia.
Qed.

End AnyProvider.

(** X7.  On a client with a positive quota, [improve_text] returns
    normally whatever the text, the mode and the behaviour of the
    provider: no exception of the provider gets out.  It makes at most
    [max_retries] provider calls, and a result other than [None] is the
    stripped text of a non-empty reply the provider gave during the
    call. *)
Theorem improve_text_any_provider
        (env : Env) (c : GeminiClient) (text : pystr) (mode : string) (w : World) :
  0 < requests_per_minute c ->
  exists r w',
    improve_text env c text mode w = (Ok r, w') /\
    (api_calls w <= api_calls w' <= api_calls w + Z.to_nat (max_retries c))%nat /\
    (r = None \/
     exists i answer, (api_calls w <= i < api_calls w')%nat /\
                      provider env i = Responds answer /\
                      answer <> [] /\ r = Some (strip answer)).
Proof.
  intros Hrpm. unfold improve_text.
  destruct (blank_input text); [exists None, w; repeat split; auto; lia|].
  destruct (prompt_template mode PROMPTS) as [template|];
    [|exists None, w; repeat split; auto; lia].
  unfold bind. rewrite (check_rate_limit_run c w Hrpm).
  set (w1 := limiter_world c w (limiter_wait c w)).
  destruct (retry_loop_outcome env c (format_prompt template text)
              (py_range (max_retries c)) w1)
    as (r & w' & evs & E & _ & _ & Ha & Hlen & _ & _ & Hres).
  assert (H1 : api_calls w1 = api_calls w) by apply limiter_world_api_calls.
  unfold py_range in Hlen. rewrite length_map, length_seq in Hlen.
  exists r, w'. rewrite E. split; [reflexivity|].
  split; [lia|].
  destruct Hres as [-> | (i & answer & Hi & Hans & Hne & ->)]; [now left|].
  right. exists i, answer. repeat split; auto; lia.
Qed.

Lemma improve_text_any_provider_witness :
  let env := mkEnv (fun i => if Nat.even i then Raises else Responds [32; 111; 107; 10]%N)
                   (fun _ => true) None in
  let w := mkWorld 100 [] 0 0 None [] false in
  exists r w',
    improve_text env (mkClient 50 3) [104; 105]%N "casual" w = (Ok r, w') /\
    (api_calls w <= api_calls w' <= api_calls w + 3)%nat /\
    (r = None \/
     exists i answer, (api_calls w <= i < api_calls w')%nat /\
                      provider env i = Responds answer /\
                      answer <> [] /\ r = Some (strip answer)).
Proof.
  intros env w.
  apply (improve_text_any_provider env (mkClient 50 3) [104; 105]%N "casual" w).
  reflexivity.
Defined.

(** ** The text [improve_text] returns is trimmed *)

Lemma lstrip_head (s : pystr) :
  match lstrip s with
  | [] => True
  | ch :: _ => py_isspace ch = false
  end.
Proof.
  induction s as [|a r IH]; simpl; auto.
  destruct (py_isspace a) eqn:E; simpl; auto.
Qed.

Lemma lstrip_fixed (s : pystr) :
  match s with [] => True | ch :: _ => py_isspace ch = false end ->
  lstrip s = s.
Proof. destruct s as [|a r]; simpl; auto. now intros ->. Qed.

Lemma lstrip_snoc (s : pystr) (ch : codepoint) :
  py_isspace ch = false -> lstrip (s ++ [ch]) = lstrip s ++ [ch].
Proof.
  intros Hch. induction s as [|a r IH]; simpl.
  - now rewrite Hch.
  - destruct (py_isspace a); auto.
Qed.

Lemma rstrip_cons (ch : codepoint) (s : pystr) :
  py_isspace ch = false -> rstrip (ch :: s) = ch :: rstrip s.
Proof.
  intros Hch. unfold rstrip. simpl.
  rewrite (lstrip_snoc _ _ Hch), rev_app_distr. reflexivity.
Qed.

Lemma rstrip_fixed (s : pystr) : rstrip (rstrip s) = rstrip s.
Proof.
  unfold rstrip. rewrite rev_involutive. f_equal.
  apply lstrip_fixed. apply lstrip_head.
Qed.

Lemma strip_trimmed (s : pystr) :
  lstrip (strip s) = strip s /\ rstrip (strip s) = strip s.
Proof.
  unfold strip. split; [|apply rstrip_fixed].
  pose proof (lstrip_head s) as H.
  destruct (lstrip s) as [|ch r]; [reflexivity|].
  rewrite (rstrip_cons ch r H). simpl. now rewrite H.
Qed.

(** X8.  A text returned by [improve_text] is trimmed: it neither begins
    nor ends with whitespace ([lstrip] and [rstrip] leave it as it is).
    This holds for every client, provider and input. *)
Theorem improve_text_result_trimmed
        (env : Env) (c : GeminiClient) (text : pystr) (mode : string)
        (w w' : World) (t : pystr) :
  improve_text env c text mode w = (Ok (Some t), w') ->
  lstrip t = t /\ rstrip t = t.
Proof.
  unfold improve_text.
  destruct (blank_input text); [discriminate|].
  destruct (prompt_template mode PROMPTS) as [template|]; [|discriminate].
  unfold bind.
  destruct (_check_rate_limit c w) as [[[]|e] w1]; [|discriminate].
  destruct (retry_loop_outcome env c (format_prompt template text)
              (py_range (max_retries c)) w1)
    as (r & w2 & evs & E & _ & _ & _ & _ & _ & _ & Hres).
  rewrite E. intros H. inversion H; subst.
  destruct Hres as [Hr | (i & answer & _ & _ & _ & Hr)]; [discriminate|].
  inversion Hr. apply strip_trimmed.
Qed.

Lemma improve_text_result_trimmed_witness :
  let env := mkEnv (fun _ => Responds [32; 111; 107; 10]%N) (fun _ => true) None in
  let w := mkWorld 100 [] 0 0 None [] false in
  lstrip [111; 107]%N = [111; 107]%N /\ rstrip [111; 107]%N = [111; 107]%N.
Proof.
  intros env w.
  apply (improve_text_result_trimmed env (mkClient 50 3) [104; 105]%N "casual" w
           (snd (improve_text env (mkClient 50 3) [104; 105]%N "casual" w))).
  reflexivity.
Defined.

Lemma deque_append_last (maxlen : Z) (x d : Q) (times : list Q) :
  0 < maxlen -> last (deque_append maxlen x times) d = x.
Proof.
  intros Hpos. unfold deque_append. rewrite skipn_app.
  replace (List.length (times ++ [x]) - Z.to_nat maxlen - List.length times)%nat
    with 0%nat by (rewrite length_app; simpl; lia).
  simpl. apply last_last.
Qed.

(** X9.  For an accepted input (text not blank, known mode) on a client
    with a positive quota and at least one attempt allowed, the provider
    is contacted; every provider call of the request carries the same
    prompt, the template of the mode followed by the text exactly as it
    was given, and the request leaves one stamp at the end of the record,
    however many attempts it took. *)
Theorem improve_text_prompt
        (env : Env) (c : GeminiClient) (text : pystr) (mode template : string)
        (w : World) :
  0 < requests_per_minute c ->
  1 <= max_retries c ->
  blank_input text = false ->
  prompt_template mode PROMPTS = Some template ->
  exists evs,
    trace (snd (improve_text env c text mode w)) =
      trace (snd (_check_rate_limit c w)) ++
      EGenerate (pystr_of_string template ++ text) :: evs /\
    Forall (retry_event (pystr_of_string template ++ text)) evs /\
    request_times (snd (improve_text env c text mode w)) =
      request_times (snd (_check_rate_limit c w)) /\
    last (request_times (snd (improve_text env c text mode w))) 0%Q =
      clock (snd (_check_rate_limit c w)).
Proof.
  intros Hrpm Hretries Hb Ht. unfold improve_text. rewrite Hb, Ht.
  unfold bind. rewrite (check_rate_limit_run c w Hrpm). simpl snd.
  set (w1 := limiter_world c w (limiter_wait c w)).
  assert (Hrange : py_range (max_retries c) =
                   0 :: map Z.of_nat (seq 1 (Z.to_nat (max_retries c) - 1))).
  { unfold py_range.
    replace (Z.to_nat (max_retries c)) with (S (Z.to_nat (max_retries c) - 1)) at 1 by lia.
    reflexivity. }
  rewrite Hrange. simpl retry_loop. unfold bind.
  fold (format_prompt template text).
  set (prompt := format_prompt template text).
  destruct (attempt_once_outcome env c prompt 0 w1)
    as (r1 & w2 & evs1 & E1 & Ht1 & Hev1 & _ & _ & Hr1 & _ & Hres1).
  rewrite E1.
  assert (Hlast : last (request_times w1) 0%Q = clock w1).
  { unfold w1, limiter_world.
    destruct (limiter_wait c w); simpl; now apply deque_append_last. }
  destruct Hres1 as [-> | (answer & _ & _ & ->)].
  - destruct (retry_loop_outcome env c prompt
                (map Z.of_nat (seq 1 (Z.to_nat (max_retries c) - 1))) w2)
      as (r & w3 & evs & E & Ht3 & Hev & _ & _ & Hr3 & _ & _).
    rewrite E. simpl snd.
    exists (evs1 ++ evs). split.
    + rewrite Ht3, Ht1, <- app_assoc. reflexivity.
    + split; [apply Forall_app; auto|].
      split; [congruence|]. rewrite Hr3, Hr1. exact Hlast.
  - simpl snd. exists evs1. split; [exact Ht1|].
    split; [exact Hev1|]. split; [exact Hr1|]. rewrite Hr1. exact Hlast.
Qed.

Lemma improve_text_prompt_witness :
  let env := mkEnv (fun _ => Raises) (fun _ => true) None in
  let w := mkWorld 100 [] 0 0 None [] false in
  exists evs,
    trace (snd (improve_text env (mkClient 50 3) [32; 104; 105]%N "formal" w)) =
      trace (snd (_check_rate_limit (mkClient 50 3) w)) ++
      EGenerate (pystr_of_string
                   "Rewrite the following text in a more formal and professional style.
Maintain the core message. Only return the rewritten text, nothing else.

Text: " ++ [32; 104; 105]%N) :: evs /\
    Forall (retry_event (pystr_of_string
                   "Rewrite the following text in a more formal and professional style.
Maintain the core message. Only return the rewritten text, nothing else.

Text: " ++ [32; 104; 105]%N)) evs.
Proof.
  intros env w.
  destruct (improve_text_prompt env (mkClient 50 3) [32; 104; 105]%N "formal"
              "Rewrite the following text in a more formal and professional style.
Maintain the core message. Only return the rewritten text, nothing else.

Text: " w eq_refl ltac:(simpl; lia) eq_refl eq_refl) as (evs & H1 & H2 & _).
  exists evs. auto.
Defined.

(** ** [GeminiClient.improve_text]: giving up *)

(** X10.  When the provider raises on every attempt and at least one
    attempt is allowed, [improve_text] sleeps 2^0, ..., 2^(max_retries-2)
    seconds between the attempts and nothing after the last one: it
    gives up [2^(max_retries-1) - 1] seconds after the first attempt,
    and the last thing it does is a provider call. *)
Theorem improve_text_all_raise
        (env : Env) (c : GeminiClient) (text : pystr) (mode : string) (w : World) :
  0 < requests_per_minute c ->
  1 <= max_retries c ->
  blank_input text = false ->
  In mode ["grammar_fix"; "formal"; "casual"; "simplify"; "expand"]%string ->
  (forall i, (i < Z.to_nat (max_retries c))%nat ->
             provider env (api_calls w + i) = Raises) ->
  exists w' evs prompt,
    improve_text env c text mode w = (Ok None, w') /\
    trace w' = trace (snd (_check_rate_limit c w)) ++ evs ++ [EGenerate prompt] /\
    delays (evs ++ [EGenerate prompt]) =
      map (fun i => inject_Z (2 ^ Z.of_nat i)) (seq 0 (Z.to_nat (max_retries c) - 1)) /\
    Qsum (delays (evs ++ [EGenerate prompt])) ==
      inject_Z (2 ^ (max_retries c - 1) - 1).
Proof.
  intros Hrpm Hretries Htext Hmode Hraise.
  unfold improve_text. rewrite Htext.
  rewrite <- known_modes in Hmode.
  destruct (prompt_template_known mode PROMPTS Hmode) as [template ->].
  unfold bind at 1. rewrite (check_rate_limit_run c w Hrpm). simpl snd.
  set (w1 := limiter_world c w (limiter_wait c w)).
  set (prompt := format_prompt template text).
  set (n := (Z.to_nat (max_retries c) - 1)%nat).
  assert (Hsplit : py_range (max_retries c) = map Z.of_nat (seq 0 n) ++ [Z.of_nat n]).
  { unfold py_range.
    replace (Z.to_nat (max_retries c)) with (n + 1)%nat by (unfold n; lia).
    rewrite seq_app, map_app. reflexivity. }
  rewrite Hsplit, retry_loop_raises.
  2:{ intros i Hi. unfold w1. rewrite limiter_world_api_calls.
      apply Hraise. unfold n in Hi. lia. }
  simpl retry_loop. unfold bind.
  rewrite (attempt_once_raises env c prompt (Z.of_nat n)).
  2:{ rewrite after_raises_api_calls. unfold w1. rewrite limiter_world_api_calls.
      apply Hraise. unfold n. lia. }
  unfold backoff.
  replace (Z.of_nat n <? max_retries c - 1) with false
    by (symmetry; apply Z.ltb_ge; unfold n; lia).
  exists (called prompt (after_raises c prompt 0 n w1)), (raising_events prompt 0 n), prompt.
  split; [reflexivity|].
  split.
  { simpl. rewrite after_raises_trace by (unfold n; lia). now rewrite <- app_assoc. }
  assert (Hd : delays (raising_events prompt 0 n ++ [EGenerate prompt]) =
               map (fun i => inject_Z (2 ^ Z.of_nat i)) (seq 0 n)).
  { rewrite delays_app, delays_raising_events. simpl. apply app_nil_r. }
  split; [exact Hd|].
  rewrite Hd, Qsum_powers. simpl (Z.of_nat 0).
  rewrite Z.pow_0_r, Z.mul_1_l.
  replace (Z.of_nat n) with (max_retries c - 1) by (unfold n; lia).
  reflexivity.
Qed.

Lemma improve_text_all_raise_witness :
  let env := mkEnv (fun _ => Raises) (fun _ => true) None in
  let w := mkWorld 100 [] 0 0 None [] false in
  exists w' evs prompt,
    improve_text env (mkClient 50 3) [104; 105]%N "expand" w = (Ok None, w') /\
    trace w' = trace (snd (_check_rate_limit (mkClient 50 3) w)) ++ evs ++ [EGenerate prompt] /\
    delays (evs ++ [EGenerate prompt]) = [inject_Z 1; inject_Z 2] /\
    Qsum (delays (evs ++ [EGenerate prompt])) == inject_Z 3.
Proof.
  intros env w.
  apply (improve_text_all_raise env (mkClient 50 3) [104; 105]%N "expand" w).
  - reflexivity.
  - simpl. lia.
  - reflexivity.
  - simpl. tauto.
  - intros i _. reflexivity.
Defined.

(** ** [GeminiClient._check_rate_limit]: edge cases *)

(** X11.  A client built with [requests_per_minute = 0] cannot serve any
    request: its record is always empty, the test "at limit" is always
    true, and reading the oldest entry raises [IndexError].  For an
    accepted input [improve_text] raises it before any provider call. *)
Theorem improve_text_zero_quota
        (env : Env) (c : GeminiClient) (text : pystr) (mode : string) (w : World) :
  requests_per_minute c = 0 ->
  request_times w = [] ->
  blank_input text = false ->
  In mode ["grammar_fix"; "formal"; "casual"; "simplify"; "expand"]%string ->
  fst (improve_text env c text mode w) = Raise IndexError /\
  api_calls (snd (improve_text env c text mode w)) = api_calls w /\
  trace (snd (improve_text env c text mode w)) = trace w /\
  request_times (snd (improve_text env c text mode w)) = [].
Proof.
  intros Hrpm Hnil Htext Hmode.
  unfold improve_text. rewrite Htext.
  rewrite <- known_modes in Hmode.
  destruct (prompt_template_known mode PROMPTS Hmode) as [template ->].
  unfold _check_rate_limit, deque_front. run.
  rewrite Hrpm, Hnil. simpl. auto.
Qed.

Lemma improve_text_zero_quota_witness :
  let env := mkEnv (fun _ => Responds [111; 107]%N) (fun _ => true) None in
  let w := mkWorld 100 [] 0 0 None [] false in
  fst (improve_text env (mkClient 0 3) [104; 105]%N "formal" w) = Raise IndexError.
Proof.
  intros env w.
  apply (improve_text_zero_quota env (mkClient 0 3) [104; 105]%N "formal" w);
    try reflexivity.
  simpl. auto.
Defined.

Lemma Forall_skipn_Q (P : Q -> Prop) (n : nat) (l : list Q) :
  Forall P l -> Forall P (skipn n l).
Proof.
  revert l. induction n as [|n IH]; intros l H; simpl; auto.
  destruct l; auto. inversion H; auto.
Qed.

Lemma discard_old_Forall (P : Q -> Prop) (now : Q) (times : list Q) :
  Forall P times -> Forall P (discard_old now times).
Proof.
  induction 1 as [|t r Ht Hr IH]; simpl; auto.
  destruct (Qlt_le_dec 60 (now - t)); auto.
Qed.

Lemma discard_old_head (now : Q) (times : list Q) :
  match discard_old now times with
  | [] => True
  | oldest :: _ => (now - oldest <= 60)%Q
  end.
Proof.
  induction times as [|t r IH]; simpl; auto.
  destruct (Qlt_le_dec 60 (now - t)); simpl; auto.
Qed.

Lemma deque_append_Forall (P : Q -> Prop) (maxlen : Z) (x : Q) (times : list Q) :
  Forall P times -> P x -> Forall P (deque_append maxlen x times).
Proof.
  intros Ht Hx. unfold deque_append. apply Forall_skipn_Q.
  apply Forall_app. split; [exact Ht | constructor; [exact Hx | constructor]].
Qed.

Lemma limiter_wait_bounds (c : GeminiClient) (w : World) (d : Q) :
  Forall (fun t => t <= clock w)%Q (request_times w) ->
  limiter_wait c w = Some d -> (0 < d <= 60)%Q.
Proof.
  intros Hpast. unfold limiter_wait.
  pose proof (discard_old_Forall _ (clock w) _ Hpast) as Hpast'.
  destruct (requests_per_minute c <=? _); [|discriminate].
  destruct (discard_old (clock w) (request_times w)) as [|oldest rest]; [discriminate|].
  inversion Hpast' as [|? ? Ho _]; subst.
  destruct (Qlt_le_dec 0 (60 - (clock w - oldest))) as [Hw|Hw]; [|discriminate].
  intros H. inversion H; subst. lra.
Qed.

Lemma limiter_world_fields (c : GeminiClient) (w : World) (d : option Q) :
  clock (limiter_world c w d) =
    match d with Some d => (clock w + d)%Q | None => clock w end /\
  trace (limiter_world c w d) =
    match d with Some d => trace w ++ [ESleep d] | None => trace w end /\
  request_times (limiter_world c w d) =
    deque_append (requests_per_minute c) (clock (limiter_world c w d))
                 (discard_old (clock w) (request_times w)).
Proof. destruct d; repeat split. Qed.

(** X12.  When no recorded timestamp lies in the future, one call of the
    limiter on a client with a positive quota sleeps at most once and at
    most 60 seconds, so it returns between [now] and [now + 60]; the
    record it leaves again has no timestamp in the future. *)
Theorem check_rate_limit_wait_bounded (c : GeminiClient) (w : World) :
  0 < requests_per_minute c ->
  Forall (fun t => t <= clock w)%Q (request_times w) ->
  exists w',
    _check_rate_limit c w = (Ok tt, w') /\
    (clock w <= clock w' <= clock w + 60)%Q /\
    (trace w' = trace w \/
     exists d, (0 < d <= 60)%Q /\ trace w' = trace w ++ [ESleep d]) /\
    Forall (fun t => t <= clock w')%Q (request_times w').
Proof.
  intros Hrpm Hpast.
  exists (limiter_world c w (limiter_wait c w)).
  split; [now apply check_rate_limit_run|].
  destruct (limiter_world_fields c w (limiter_wait c w)) as (Hc & Ht & Hr).
  pose proof (limiter_wait_bounds c w) as Hb.
  assert (Hclock : (clock w <= clock (limiter_world c w (limiter_wait c w))
                    <= clock w + 60)%Q).
  { rewrite Hc. destruct (limiter_wait c w) as [d|].
    - specialize (Hb d Hpast eq_refl). lra.
    - lra. }
  split; [exact Hclock|]. split.
  - rewrite Ht. destruct (limiter_wait c w) as [d|]; [|now left].
    right. exists d. split; [now apply Hb | reflexivity].
  - rewrite Hr. apply deque_append_Forall.
    + eapply Forall_impl; [|apply discard_old_Forall; exact Hpast].
      simpl. intros t Hle. lra.
    + lra.
Qed.

Lemma check_rate_limit_wait_bounded_witness :
  let w := mkWorld 100 [] 0 0 None [30; 50; 70]%Q false in
  exists w',
    _check_rate_limit (mkClient 2 3) w = (Ok tt, w') /\
    (clock w <= clock w' <= clock w + 60)%Q.
Proof.
  intros w.
  destruct (check_rate_limit_wait_bounded (mkClient 2 3) w) as (w' & H1 & H2 & _).
  - reflexivity.
  - repeat constructor; discriminate.
  - exists w'. auto.
Defined.

(** ** Frames: what each operation leaves alone *)

Lemma pasted_app (evs evs' : list event) :
  pasted (evs ++ evs') = pasted evs ++ pasted evs'.
Proof.
  induction evs as [|e r IH]; simpl; auto.
  destruct e; simpl; now rewrite ?IH.
Qed.

Section Frames.

Context {X : Type} (f : World -> X).

Lemma keeps_ret {A} (a : A) : keeps f (ret a).
Proof. intros w. reflexivity. Qed.

Lemma keeps_lift {A} (r : res A) : keeps f (lift r).
Proof. intros w. reflexivity. Qed.

Lemma keeps_gets {A} (g : World -> A) : keeps f (gets g).
Proof. intros w. reflexivity. Qed.

Lemma keeps_modify (g : World -> World) :
  (forall w, f (g w) = f w) -> keeps f (modify g).
Proof. intros H w. apply H. Qed.

Lemma keeps_bind {A B} (m : M A) (k : A -> M B) :
  keeps f m -> (forall a, keeps f (k a)) -> keeps f (bind m k).
Proof.
  intros Hm Hk w. unfold bind. specialize (Hm w).
  destruct (m w) as [[a|e] w1]; simpl in *.
  - now rewrite Hk.
  - assumption.
Qed.

Lemma keeps_try_except {A} (body : M A) (handler : exn -> M A) :
  keeps f body -> (forall e, keeps f (handler e)) ->
  keeps f (try_except body handler).
Proof.
  intros Hb Hh w. unfold try_except. specialize (Hb w).
  destruct (body w) as [[a|e] w1]; simpl in *.
  - assumption.
  - now rewrite Hh.
Qed.

End Frames.

Ltac keeps_step :=
  match goal with
  | |- keeps _ (bind _ _) => apply keeps_bind; [|intros ?]
  | |- keeps _ (try_except _ _) => apply keeps_try_except; [|intros ?]
  | |- keeps _ (ret _) => apply keeps_ret
  | |- keeps _ (lift _) => apply keeps_lift
  | |- keeps _ (gets _) => apply keeps_gets
  | |- keeps _ (modify _) =>
      apply keeps_modify; intros ?; unfold pasted_so_far; simpl;
      rewrite ?pasted_app; simpl; rewrite ?app_nil_r; reflexivity
  | |- keeps _ (time_sleep _) =>
      unfold time_sleep; apply keeps_modify; intros ?; unfold pasted_so_far; simpl;
      rewrite ?pasted_app; simpl; rewrite ?app_nil_r; reflexivity
  | |- keeps _ (if ?b then _ else _) => destruct b
  | |- keeps _ (match ?x with _ => _ end) => destruct x
  | |- keeps _ _ => assumption
  end.

(** The rate limiter touches only the clock, the trace (by sleeping) and
    its own record. *)
Lemma check_rate_limit_keeps_api_calls (c : GeminiClient) :
  keeps api_calls (_check_rate_limit c).
Proof.
  unfold _check_rate_limit, time_time. repeat keeps_step.
  intros w. unfold deque_front. destruct (request_times w); reflexivity.
Qed.

Lemma check_rate_limit_keeps_pasted (c : GeminiClient) :
  keeps pasted_so_far (_check_rate_limit c).
Proof.
  unfold _check_rate_limit, time_time. repeat keeps_step.
  intros w. unfold deque_front. destruct (request_times w); reflexivity.
Qed.

Lemma check_rate_limit_keeps_clipboard (c : GeminiClient) :
  keeps clipboard (_check_rate_limit c).
Proof.
  unfold _check_rate_limit, time_time. repeat keeps_step.
  intros w. unfold deque_front. destruct (request_times w); reflexivity.
Qed.

Section ComponentFrames.

Variable env : Env.

Lemma generate_content_keeps_pasted (prompt : pystr) :
  keeps pasted_so_far (generate_content env prompt).
Proof.
  intros w. unfold generate_content, pasted_so_far.
  destruct (provider env (api_calls w)); simpl;
    rewrite pasted_app; simpl; now rewrite app_nil_r.
Qed.

Lemma generate_content_keeps_clipboard (prompt : pystr) :
  keeps clipboard (generate_content env prompt).
Proof.
  intros w. unfold generate_content.
  destruct (provider env (api_calls w)); reflexivity.
Qed.

Lemma retry_loop_keeps_pasted (c : GeminiClient) (prompt : pystr) (attempts : list Z) :
  keeps pasted_so_far (retry_loop env c prompt attempts).
Proof.
  pose proof (generate_content_keeps_pasted prompt) as Hg.
  induction attempts as [|a rest IH]; simpl; [apply keeps_ret|].
  unfold attempt_once. repeat keeps_step.
Qed.

Lemma retry_loop_keeps_clipboard (c : GeminiClient) (prompt : pystr) (attempts : list Z) :
  keeps clipboard (retry_loop env c prompt attempts).
Proof.
  pose proof (generate_content_keeps_clipboard prompt) as Hg.
  induction attempts as [|a rest IH]; simpl; [apply keeps_ret|].
  unfold attempt_once. repeat keeps_step.
Qed.

Lemma improve_text_keeps_pasted (c : GeminiClient) (text : pystr) (mode : string) :
  keeps pasted_so_far (improve_text env c text mode).
Proof.
  pose proof (check_rate_limit_keeps_pasted c) as Hc.
  unfold improve_text.
  destruct (blank_input text); [apply keeps_ret|].
  destruct (prompt_template mode PROMPTS); [|apply keeps_ret].
  apply keeps_bind; [exact Hc|]. intros _. apply retry_loop_keeps_pasted.
Qed.

Lemma improve_text_keeps_clipboard (c : GeminiClient) (text : pystr) (mode : string) :
  keeps clipboard (improve_text env c text mode).
Proof.
  pose proof (check_rate_limit_keeps_clipboard c) as Hc.
  unfold improve_text.
  destruct (blank_input text); [apply keeps_ret|].
  destruct (prompt_template mode PROMPTS); [|apply keeps_ret].
  apply keeps_bind; [exact Hc|]. intros _. apply retry_loop_keeps_clipboard.
Qed.

(** A notification leaves everything but the trace and the script counter. *)
Lemma show_notification_run (title message : string) (w : World) :
  show_notification env title message w =
  (Ok tt, incr_scripts_run
            (emit (EScript (DisplayNotification title message)
                           (osascript_ok env (scripts_run w))) w)).
Proof.
  unfold show_notification, _execute_applescript. run.
  destruct (osascript_ok env (scripts_run w)); reflexivity.
Qed.

Lemma show_notification_keeps {X} (f : World -> X) (title message : string) :
  (forall e w, f (incr_scripts_run (emit (EScript e (osascript_ok env (scripts_run w))) w)) = f w) ->
  keeps f (show_notification env title message).
Proof. intros H w. rewrite show_notification_run. apply H. Qed.

Lemma notify_keeps {X} (f : World -> X) (config : dict) (message : string) :
  (forall e w, f (incr_scripts_run (emit (EScript e (osascript_ok env (scripts_run w))) w)) = f w) ->
  keeps f (notify env config message).
Proof.
  intros H. unfold notify.
  apply keeps_bind; [apply keeps_lift|]. intros v.
  destruct (truthy v); [now apply show_notification_keeps | apply keeps_ret].
Qed.

End ComponentFrames.

Lemma script_event_pasted (e : script) (ok : bool) (w : World) :
  pasted_so_far (incr_scripts_run (emit (EScript e ok) w)) = pasted_so_far w.
Proof.
  unfold pasted_so_far. simpl. rewrite pasted_app. simpl. apply app_nil_r.
Qed.

(** ** [TextHandler.get_selected_text]: what is captured *)

Lemma non_blank_Some (s : pystr) :
  blank_input s = false -> non_blank (Some s) = Some s.
Proof.
  unfold blank_input, non_blank. intros H.
  apply orb_false_iff in H. destruct H as [H1 H2].
  apply negb_false_iff in H1. apply negb_false_iff in H2.
  now rewrite H1, H2.
Qed.

Lemma get_selected_text_run (env : Env) (w : World) :
  fst (get_selected_text env w) = Ok (non_blank (post_copy env w)) /\
  clipboard (snd (get_selected_text env w)) =
    (if opt_truthy (clipboard w) then clipboard w else post_copy env w) /\
  api_calls (snd (get_selected_text env w)) = api_calls w /\
  request_times (snd (get_selected_text env w)) = request_times w /\
  pasted_so_far (snd (get_selected_text env w)) = pasted_so_far w /\
  lock_held (snd (get_selected_text env w)) = lock_held w.
Proof.
  unfold get_selected_text, _execute_applescript, post_copy, non_blank, pasted_so_far.
  run.
  destruct (osascript_ok env (scripts_run w)); simpl;
    destruct (selection env) as [t|]; simpl;
    destruct (clipboard w) as [old|] eqn:Hcl; simpl;
    repeat match goal with
           | |- context [str_truthy ?x] => destruct (str_truthy x) eqn:?; simpl
           end;
    rewrite ?pasted_app; simpl; rewrite ?app_nil_r, ?Hcl;
    repeat split; reflexivity.
Qed.

(** X13.  When the copy script runs and the selection is a text that is
    not blank, [get_selected_text] returns that text exactly as selected
    (not stripped).  If the clipboard held a non-empty string before, it
    holds it again afterwards; if it was empty, the selection stays on
    the clipboard. *)
Theorem get_selected_text_returns_selection (env : Env) (w : World) (t : pystr) :
  osascript_ok env (scripts_run w) = true ->
  selection env = Some t ->
  blank_input t = false ->
  fst (get_selected_text env w) = Ok (Some t) /\
  clipboard (snd (get_selected_text env w)) =
    (if opt_truthy (clipboard w) then clipboard w else Some t).
Proof.
  intros Hok Hsel Hb.
  destruct (get_selected_text_run env w) as (Hr & Hc & _).
  unfold post_copy in *. rewrite Hok, Hsel in *.
  rewrite Hr, Hc. now rewrite (non_blank_Some t Hb).
Qed.

Lemma get_selected_text_returns_selection_witness :
  let env := mkEnv (fun _ => Raises) (fun _ => true) (Some [32; 104; 105]%N) in
  fst (get_selected_text env (mkWorld 0 [] 0 0 (Some [111; 108; 100]%N) [] true))
    = Ok (Some [32; 104; 105]%N) /\
  clipboard (snd (get_selected_text env (mkWorld 0 [] 0 0 None [] true)))
    = Some [32; 104; 105]%N.
Proof.
  intros env. split.
  - apply (get_selected_text_returns_selection env
             (mkWorld 0 [] 0 0 (Some [111; 108; 100]%N) [] true)); reflexivity.
  - apply (get_selected_text_returns_selection env
             (mkWorld 0 [] 0 0 None [] true) [32; 104; 105]%N); reflexivity.
Defined.

(** X14.  When nothing is selected, or the copy script fails, the
    clipboard is not changed by the copy, and [get_selected_text] returns
    what the clipboard already held, provided it is not blank: the old
    clipboard content is taken for the selection. *)
Theorem get_selected_text_returns_old_clipboard (env : Env) (w : World) (old : pystr) :
  osascript_ok env (scripts_run w) = false \/ selection env = None ->
  clipboard w = Some old ->
  blank_input old = false ->
  fst (get_selected_text env w) = Ok (Some old) /\
  clipboard (snd (get_selected_text env w)) = Some old.
Proof.
  intros Hno Hclip Hb.
  destruct (get_selected_text_run env w) as (Hr & Hc & _).
  assert (Hpost : post_copy env w = Some old).
  { unfold post_copy. destruct Hno as [-> | ->]; [assumption|].
    destruct (osascript_ok env (scripts_run w)); assumption. }
  rewrite Hr, Hc, Hpost, Hclip. rewrite (non_blank_Some old Hb).
  split; [reflexivity|]. destruct (opt_truthy (Some old)); reflexivity.
Qed.

Lemma get_selected_text_returns_old_clipboard_witness :
  let env := mkEnv (fun _ => Raises) (fun _ => true) None in
  fst (get_selected_text env (mkWorld 0 [] 0 0 (Some [111; 108; 100]%N) [] true))
    = Ok (Some [111; 108; 100]%N).
Proof.
  intros env.
  apply (get_selected_text_returns_old_clipboard env
           (mkWorld 0 [] 0 0 (Some [111; 108; 100]%N) [] true) [111; 108; 100]%N).
  - right. reflexivity.
  - reflexivity.
  - reflexivity.
Defined.

(** ** [TextHandler.replace_selected_text]: what is reported *)

Lemma replace_selected_text_run (env : Env) (new_text : pystr) (w : World) :
  new_text <> [] ->
  fst (replace_selected_text env new_text w) = Ok true /\
  pasted_so_far (snd (replace_selected_text env new_text w)) =
    pasted_so_far w ++
    (if osascript_ok env (scripts_run w) then [Some new_text] else []) /\
  api_calls (snd (replace_selected_text env new_text w)) = api_calls w /\
  request_times (snd (replace_selected_text env new_text w)) = request_times w /\
  lock_held (snd (replace_selected_text env new_text w)) = lock_held w.
Proof.
  intros Hne. destruct new_text as [|ch rest]; [congruence|].
  unfold replace_selected_text, _execute_applescript, pasted_so_far. run.
  destruct (osascript_ok env (scripts_run w)); simpl;
    destruct (clipboard w) as [old|]; simpl;
    try destruct (str_truthy old); simpl;
    rewrite ?pasted_app; simpl; rewrite ?pasted_app; simpl;
    rewrite ?app_nil_r; rewrite <- ?app_assoc; simpl;
    repeat split; reflexivity.
Qed.

(** X15.  For a non-empty text [replace_selected_text] always returns
    [True], also when the paste script failed and nothing was pasted:
    the outcome of the keystroke is not looked at.  When the script ran,
    what was pasted is the new text. *)
Theorem replace_selected_text_always_true (env : Env) (new_text : pystr) (w : World) :
  new_text <> [] ->
  fst (replace_selected_text env new_text w) = Ok true /\
  pasted_so_far (snd (replace_selected_text env new_text w)) =
    pasted_so_far w ++
    (if osascript_ok env (scripts_run w) then [Some new_text] else []).
Proof.
  intros Hne.
  destruct (replace_selected_text_run env new_text w Hne) as (H1 & H2 & _).
  auto.
Qed.

Lemma replace_selected_text_always_true_witness :
  let env := mkEnv (fun _ => Raises) (fun _ => false) None in
  let w := mkWorld 0 [] 0 0 (Some [111; 108; 100]%N) [] true in
  fst (replace_selected_text env [104; 105]%N w) = Ok true /\
  pasted_so_far (snd (replace_selected_text env [104; 105]%N w)) = pasted_so_far w ++ [].
Proof.
  intros env w.
  apply (replace_selected_text_always_true env [104; 105]%N w). discriminate.
Defined.

(** ** [WritingAssistant.handle_hotkey]: exceptions *)

Lemma ui_is_mapping_show (config : dict) :
  ui_is_mapping config = true ->
  (exists v, should_show_notifications config = Ok v) /\
  (exists d, get_notification_duration config = Ok d).
Proof.
  unfold ui_is_mapping, should_show_notifications, get_notification_duration, value_get.
  destruct (dict_get_default "ui" (VDict []) config); simpl; try discriminate.
  eauto.
Qed.

Lemma ui_not_mapping_show (config : dict) :
  ui_is_mapping config = false ->
  should_show_notifications config = Raise AttributeError.
Proof.
  unfold ui_is_mapping, should_show_notifications, value_get.
  destruct (dict_get_default "ui" (VDict []) config); simpl; auto. discriminate.
Qed.

Lemma notify_ok (env : Env) (config : dict) (message : string) (w : World) :
  ui_is_mapping config = true -> fst (notify env config message w) = Ok tt.
Proof.
  intros H. destruct (ui_is_mapping_show config H) as [[v Hv] _].
  unfold notify, bind, lift. rewrite Hv.
  destruct (truthy v); [now rewrite show_notification_run | reflexivity].
Qed.

Lemma notify_raises (env : Env) (config : dict) (message : string) (w : World) :
  ui_is_mapping config = false ->
  notify env config message w = (Raise AttributeError, w).
Proof.
  intros H. unfold notify, bind, lift.
  now rewrite (ui_not_mapping_show config H).
Qed.

(** X16.  A trigger that finds the lock free ends without an exception
    exactly when the [ui] section of the configuration is a mapping:
    then every exception of the request, whatever its stage, ends in the
    notification of the [except] block.  When [ui] is anything else, the
    test for notifications raises [AttributeError] in the [try] block and
    again in the [except] block, and that exception reaches the listener
    thread (with the lock released). *)
Theorem handle_hotkey_raises_iff
        (env : Env) (config : dict) (c : GeminiClient) (mode : string) (w : World) :
  lock_held w = false ->
  (ui_is_mapping config = true ->
   fst (handle_hotkey env config c mode w) = Ok tt) /\
  (ui_is_mapping config = false ->
   fst (handle_hotkey env config c mode w) = Raise AttributeError /\
   api_calls (snd (handle_hotkey env config c mode w)) = api_calls w /\
   scripts_run (snd (handle_hotkey env config c mode w)) = scripts_run w).
Proof.
  intros Hfree. split; intros Hui.
  - unfold handle_hotkey, lock_acquire_nonblocking, bind. rewrite Hfree.
    unfold process_request, try_finally, try_except.
    destruct (hotkey_body env config c mode (set_lock_held true w)) as [[[]|e] w1].
    + reflexivity.
    + pose proof (notify_ok env config "An error occurred" w1 Hui) as Hn.
      destruct (notify env config "An error occurred" w1). exact Hn.
  - assert (E : handle_hotkey env config c mode w =
                (Raise AttributeError, lock_release (set_lock_held true w))).
    { unfold handle_hotkey, lock_acquire_nonblocking, bind at 1. rewrite Hfree.
      unfold process_request, try_finally, try_except.
      unfold hotkey_body, bind at 1.
      rewrite (notify_raises env config _ _ Hui).
      now rewrite (notify_raises env config _ _ Hui). }
    rewrite E. repeat split.
Qed.

Lemma handle_hotkey_raises_iff_witness :
  let env := mkEnv (fun _ => Raises) (fun _ => false) (Some [104; 105]%N) in
  let w := mkWorld 100 [] 0 0 None [] false in
  fst (handle_hotkey env DEFAULT_CONFIG (mkClient 0 3) "formal" w) = Ok tt /\
  fst (handle_hotkey env (_merge_with_defaults [("ui"%string, VStr "on"%string)] DEFAULT_CONFIG)
                     (mkClient 0 3) "formal" w) = Raise AttributeError.
Proof.
  intros env w. split.
  - apply (proj1 (handle_hotkey_raises_iff env DEFAULT_CONFIG (mkClient 0 3)
                    "formal" w eq_refl)).
    reflexivity.
  - apply (proj2 (handle_hotkey_raises_iff env
                    (_merge_with_defaults [("ui"%string, VStr "on"%string)] DEFAULT_CONFIG)
                    (mkClient 0 3) "formal" w eq_refl)).
    reflexivity.
Defined.

(** ** [WritingAssistant.handle_hotkey]: what gets pasted *)

Lemma improve_text_reply
      (env : Env) (c : GeminiClient) (text : pystr) (mode : string)
      (w w' : World) (t : pystr) :
  improve_text env c text mode w = (Ok (Some t), w') ->
  exists i answer,
    provider env i = Responds answer /\ answer <> [] /\ t = strip answer.
Proof.
  unfold improve_text.
  destruct (blank_input text); [discriminate|].
  destruct (prompt_template mode PROMPTS) as [template|]; [|discriminate].
  unfold bind.
  destruct (_check_rate_limit c w) as [[[]|e] w1]; [|discriminate].
  destruct (retry_loop_outcome env c (format_prompt template text)
              (py_range (max_retries c)) w1)
    as (r & w2 & evs & E & _ & _ & _ & _ & _ & _ & Hres).
  rewrite E. intros H. inversion H; subst.
  destruct Hres as [Hr | (i & answer & _ & Hans & Hne & Hr)]; [discriminate|].
  inversion Hr. eauto.
Qed.

Section Pasting.

Variable env : Env.
Variable config : dict.
Variable c : GeminiClient.

Lemma notify_keeps_pasted (message : string) :
  keeps pasted_so_far (notify env config message).
Proof. apply notify_keeps. intros e w. apply script_event_pasted. Qed.

Lemma success_notification_keeps_pasted (message : string) :
  keeps pasted_so_far
        (show <- lift (should_show_notifications config) ;;
         if truthy show then
           lift (get_notification_duration config) ;;;
           show_notification env "Writing Assistant" message
         else ret tt).
Proof.
  apply keeps_bind; [apply keeps_lift|]. intros v.
  destruct (truthy v); [|apply keeps_ret].
  apply keeps_bind; [apply keeps_lift|]. intros _.
  apply show_notification_keeps. intros e w. apply script_event_pasted.
Qed.

Lemma hotkey_body_pastes (mode : string) (w : World) :
  pasted_a_reply env w (snd (hotkey_body env config c mode w)).
Proof.
  unfold hotkey_body. unfold bind at 1.
  pose proof (notify_keeps_pasted ("Processing (" ++ mode ++ ")...") w) as H1.
  destruct (notify env config ("Processing (" ++ mode ++ ")...") w) as [[[]|e1] w1];
    simpl in H1; [|left; exact H1].
  unfold bind at 1.
  destruct (get_selected_text_run env w1) as (_ & _ & _ & _ & H2 & _).
  destruct (get_selected_text env w1) as [[sel|e2] w2]; simpl in H2;
    [|left; simpl; congruence].
  assert (Hnone : forall message,
             pasted_a_reply env w (snd (notify env config message w2))).
  { intros message. left. rewrite (notify_keeps_pasted message w2). congruence. }
  destruct sel as [text|]; [|apply Hnone].
  destruct (str_truthy text); [|apply Hnone].
  unfold bind at 1.
  pose proof (improve_text_keeps_pasted env c text mode w2) as H3.
  destruct (improve_text env c text mode w2) as [[improved|e3] w3] eqn:Ei;
    simpl in H3; [|left; simpl; congruence].
  destruct improved as [t|]; cbn [opt_truthy];
    [|left; rewrite (notify_keeps_pasted _ w3); congruence].
  destruct (str_truthy t) eqn:Et; cbv iota;
    [|left; rewrite (notify_keeps_pasted _ w3); congruence].
  assert (Hne : t <> []) by (intros ->; discriminate).
  destruct (improve_text_reply env c text mode w2 w3 t Ei) as (i & answer & Hans & _ & Ht).
  unfold bind at 1.
  destruct (replace_selected_text_run env t w3 Hne) as (Hr & H4 & _).
  destruct (replace_selected_text env t w3) as [[success|e4] w4]; simpl in Hr, H4;
    [|discriminate].
  inversion Hr; subst success. cbv iota. unfold pasted_a_reply.
  rewrite (success_notification_keeps_pasted _ w4). rewrite H4, H3, H2, H1.
  destruct (osascript_ok env (scripts_run w3)).
  - right. exists i, answer. subst t. auto.
  - left. apply app_nil_r.
Qed.

End Pasting.

(** X17.  Whatever the configuration, the client, the state of the lock,
    the clipboard, the selection and the behaviour of the provider and of
    the scripts, one run of [handle_hotkey] pastes at most once, and what
    it pastes is the stripped, non-empty text of a reply of the provider:
    never an empty text or a text with surrounding whitespace.  (Nothing
    relates the reply to the selection: a provider that returns the
    selected text gets it pasted back.) *)
Theorem handle_hotkey_pastes_only_a_reply
        (env : Env) (config : dict) (c : GeminiClient) (mode : string) (w : World) :
  pasted_a_reply env w (snd (handle_hotkey env config c mode w)).
Proof.
  unfold handle_hotkey, lock_acquire_nonblocking, bind.
  destruct (lock_held w) eqn:Hlock; [left; reflexivity|].
  unfold process_request, try_finally, try_except.
  pose proof (hotkey_body_pastes env config c mode (set_lock_held true w)) as Hb.
  destruct (hotkey_body env config c mode (set_lock_held true w)) as [[[]|e] w1];
    simpl in Hb.
  - exact Hb.
  - pose proof (notify_keeps_pasted env config "An error occurred" w1) as Hn.
    destruct (notify env config "An error occurred" w1) as [r w2]. simpl in *.
    unfold pasted_a_reply in *. unfold pasted_so_far in *. simpl in *.
    rewrite Hn. exact Hb.
Qed.

(** ** [WritingAssistant.handle_hotkey]: nothing to capture *)

Lemma script_event_footprint (e : script) (ok : bool) (w : World) :
  footprint (incr_scripts_run (emit (EScript e ok) w)) = footprint w.
Proof.
  unfold footprint. rewrite script_event_pasted. reflexivity.
Qed.

Lemma notify_keeps_footprint (env : Env) (config : dict) (message : string) :
  keeps footprint (notify env config message).
Proof. apply notify_keeps. intros e w. apply script_event_footprint. Qed.

Lemma post_copy_no_selection (env : Env) (w : World) :
  selection env = None -> post_copy env w = clipboard w.
Proof.
  intros H. unfold post_copy. rewrite H.
  destruct (osascript_ok env (scripts_run w)); reflexivity.
Qed.

Lemma get_selected_text_nothing (env : Env) (w : World) :
  selection env = None ->
  non_blank (clipboard w) = None ->
  fst (get_selected_text env w) = Ok None /\
  footprint (snd (get_selected_text env w)) = footprint w.
Proof.
  intros Hsel Hblank.
  destruct (get_selected_text_run env w) as (Hr & Hc & Ha & Ht & Hp & _).
  rewrite (post_copy_no_selection env w Hsel) in Hr, Hc.
  rewrite Hblank in Hr. split; [exact Hr|].
  unfold footprint. rewrite Ha, Ht, Hp, Hc.
  destruct (opt_truthy (clipboard w)); reflexivity.
Qed.

(** X18.  When nothing is selected and the clipboard holds no text that
    could be taken for a selection (it is empty or blank), a trigger
    makes no provider call, leaves the record of the rate limiter and the
    clipboard as they were and pastes nothing, whatever the configuration
    and the outcome of the scripts; the lock ends as it began. *)
Theorem handle_hotkey_nothing_selected
        (env : Env) (config : dict) (c : GeminiClient) (mode : string) (w : World) :
  selection env = None ->
  non_blank (clipboard w) = None ->
  footprint (snd (handle_hotkey env config c mode w)) = footprint w /\
  lock_held (snd (handle_hotkey env config c mode w)) = lock_held w.
Proof.
  intros Hsel Hblank.
  unfold handle_hotkey, lock_acquire_nonblocking, bind.
  destruct (lock_held w) eqn:Hlock; [simpl; auto|].
  unfold process_request, try_finally, try_except.
  set (w0 := set_lock_held true w).
  assert (H0 : footprint w0 = footprint w) by reflexivity.
  assert (Hbody : footprint (snd (hotkey_body env config c mode w0)) = footprint w).
  { unfold hotkey_body. unfold bind at 1.
    pose proof (notify_keeps_footprint env config ("Processing (" ++ mode ++ ")...") w0) as H1.
    destruct (notify env config ("Processing (" ++ mode ++ ")...") w0) as [[[]|e1] w1];
      simpl in H1; [|simpl; congruence].
    unfold bind at 1.
    assert (Hclip : clipboard w1 = clipboard w).
    { unfold footprint in H1. inversion H1. reflexivity. }
    destruct (get_selected_text_nothing env w1 Hsel) as (Hr & H2);
      [now rewrite Hclip|].
    destruct (get_selected_text env w1) as [r w2]. simpl in Hr, H2. subst r.
    rewrite (notify_keeps_footprint env config "No text selected" w2).
    congruence. }
  destruct (hotkey_body env config c mode w0) as [[[]|e] w1]; simpl in Hbody.
  - simpl. split; [|reflexivity]. rewrite <- Hbody. reflexivity.
  - pose proof (notify_keeps_footprint env config "An error occurred" w1) as Hn.
    destruct (notify env config "An error occurred" w1) as [r w2]. simpl in *.
    split; [|reflexivity]. rewrite <- Hbody, <- Hn. reflexivity.
Qed.

Lemma handle_hotkey_nothing_selected_witness :
  let env := mkEnv (fun _ => Responds [111; 107]%N) (fun _ => true) None in
  let w := mkWorld 100 [] 0 0 (Some [32; 10]%N) [40]%Q false in
  footprint (snd (handle_hotkey env DEFAULT_CONFIG (mkClient 50 3) "formal" w)) = footprint w /\
  lock_held (snd (handle_hotkey env DEFAULT_CONFIG (mkClient 50 3) "formal" w)) = lock_held w.
Proof.
  intros env w.
  apply (handle_hotkey_nothing_selected env DEFAULT_CONFIG (mkClient 50 3) "formal" w);
    reflexivity.
Defined.

(** ** [WritingAssistant.handle_hotkey]: a request that succeeds *)

Lemma improve_text_first_try
      (env : Env) (c : GeminiClient) (text : pystr) (mode : string)
      (w : World) (answer : pystr) :
  0 < requests_per_minute c ->
  1 <= max_retries c ->
  blank_input text = false ->
  In mode ["grammar_fix"; "formal"; "casual"; "simplify"; "expand"]%string ->
  provider env (api_calls w) = Responds answer ->
  answer <> [] ->
  fst (improve_text env c text mode w) = Ok (Some (strip answer)) /\
  api_calls (snd (improve_text env c text mode w)) = S (api_calls w) /\
  clipboard (snd (improve_text env c text mode w)) = clipboard w /\
  pasted_so_far (snd (improve_text env c text mode w)) = pasted_so_far w /\
  scripts_run (snd (improve_text env c text mode w)) = scripts_run w.
Proof.
  intros Hrpm Hretries Htext Hmode Hans Hne.
  pose proof (improve_text_keeps_clipboard env c text mode w) as Hclip.
  pose proof (improve_text_keeps_pasted env c text mode w) as Hpasted.
  rewrite <- known_modes in Hmode.
  destruct (prompt_template_known mode PROMPTS Hmode) as [template Ht].
  assert (E : improve_text env c text mode w =
              (Ok (Some (strip answer)),
               called (format_prompt template text)
                      (limiter_world c w (limiter_wait c w)))).
  { unfold improve_text. rewrite Htext, Ht.
    unfold bind at 1. rewrite (check_rate_limit_run c w Hrpm).
    assert (Hrange : py_range (max_retries c) =
                     0 :: map Z.of_nat (seq 1 (Z.to_nat (max_retries c) - 1))).
    { unfold py_range.
      replace (Z.to_nat (max_retries c)) with (S (Z.to_nat (max_retries c) - 1)) at 1 by lia.
      reflexivity. }
    rewrite Hrange. simpl retry_loop. unfold bind.
    rewrite (attempt_once_success env c _ 0 answer);
      [reflexivity | now rewrite limiter_world_api_calls | assumption]. }
  rewrite E in *. simpl in *.
  repeat split; auto.
  - now rewrite limiter_world_api_calls.
  - destruct (limiter_wait c w); reflexivity.
Qed.

Section Success.

Variable env : Env.
Variable config : dict.
Variable c : GeminiClient.

Hypothesis scripts_work : forall i, osascript_ok env i = true.
Hypothesis ui_mapping : ui_is_mapping config = true.

Lemma success_notification_ok (message : string) (w : World) :
  fst ((show <- lift (should_show_notifications config) ;;
        if truthy show then
          lift (get_notification_duration config) ;;;
          show_notification env "Writing Assistant" message
        else ret tt) w) = Ok tt.
Proof.
  destruct (ui_is_mapping_show config ui_mapping) as [[v Hv] [d Hd]].
  unfold bind, lift. rewrite Hv.
  destruct (truthy v); [|reflexivity].
  rewrite Hd. now rewrite show_notification_run.
Qed.

Lemma success_notification_keeps_footprint (message : string) :
  keeps footprint
        (show <- lift (should_show_notifications config) ;;
         if truthy show then
           lift (get_notification_duration config) ;;;
           show_notification env "Writing Assistant" message
         else ret tt).
Proof.
  apply keeps_bind; [apply keeps_lift|]. intros v.
  destruct (truthy v); [|apply keeps_ret].
  apply keeps_bind; [apply keeps_lift|]. intros _.
  apply show_notification_keeps. intros e w. apply script_event_footprint.
Qed.

Lemma hotkey_body_success (mode : string) (text answer : pystr) (w : World) :
  0 < requests_per_minute c ->
  1 <= max_retries c ->
  In mode ["grammar_fix"; "formal"; "casual"; "simplify"; "expand"]%string ->
  selection env = Some text ->
  blank_input text = false ->
  provider env (api_calls w) = Responds answer ->
  strip answer <> [] ->
  exists w',
    hotkey_body env config c mode w = (Ok tt, w') /\
    api_calls w' = S (api_calls w) /\
    pasted_so_far w' = pasted_so_far w ++ [Some (strip answer)] /\
    clipboard w' = (if opt_truthy (clipboard w) then clipboard w else Some text).
Proof.
  intros Hrpm Hretries Hmode Hsel Htext Hans Hstrip.
  assert (Hne : answer <> []) by (intros ->; apply Hstrip; reflexivity).
  assert (Htruthy : str_truthy text = true).
  { unfold blank_input in Htext. apply orb_false_iff in Htext.
    destruct Htext as [H _]. now apply negb_false_iff in H. }
  unfold hotkey_body. unfold bind at 1.
  (* the first notification *)
  pose proof (notify_ok env config ("Processing (" ++ mode ++ ")...") w ui_mapping) as Hn1.
  pose proof (notify_keeps_footprint env config ("Processing (" ++ mode ++ ")...") w) as Hf1.
  destruct (notify env config ("Processing (" ++ mode ++ ")...") w) as [r1 w1].
  simpl in Hn1, Hf1. subst r1. unfold footprint in Hf1. inversion Hf1 as [[Ha1 Hr1 Hc1 Hp1]].
  (* the capture *)
  unfold bind at 1.
  destruct (get_selected_text_run env w1) as (Hg & Hc2 & Ha2 & _ & Hp2 & _).
  unfold post_copy in Hg, Hc2. rewrite (scripts_work (scripts_run w1)), Hsel in Hg, Hc2.
  rewrite (non_blank_Some text Htext) in Hg.
  destruct (get_selected_text env w1) as [r2 w2]. simpl in Hg, Hc2, Ha2, Hp2. subst r2.
  rewrite Htruthy.
  (* the rewrite *)
  unfold bind at 1.
  assert (Hans2 : provider env (api_calls w2) = Responds answer) by congruence.
  destruct (improve_text_first_try env c text mode w2 answer
              Hrpm Hretries Htext Hmode Hans2 Hne) as (Hi & Ha3 & Hc3 & Hp3 & _).
  destruct (improve_text env c text mode w2) as [r3 w3]. simpl in Hi, Ha3, Hc3, Hp3.
  subst r3. cbn [opt_truthy].
  assert (Hst : str_truthy (strip answer) = true)
    by (destruct (strip answer); [congruence | reflexivity]).
  rewrite Hst.
  (* the replacement *)
  unfold bind at 1.
  destruct (replace_selected_text_run env (strip answer) w3 Hstrip) as (Hr & Hp4 & Ha4 & _).
  pose proof (replace_selected_text_clipboard env (strip answer) w3) as Hc4.
  rewrite (scripts_work (scripts_run w3)) in Hp4.
  destruct (replace_selected_text env (strip answer) w3) as [r4 w4].
  simpl in Hr, Hp4, Ha4, Hc4. subst r4. cbv iota.
  (* the last notification *)
  pose proof (success_notification_ok ("Text improved (" ++ mode ++ ")") w4) as Hn5.
  pose proof (success_notification_keeps_footprint ("Text improved (" ++ mode ++ ")") w4) as Hf5.
  match goal with
  | |- exists w', ?m w4 = _ /\ _ => destruct (m w4) as [r5 w5]
  end.
  simpl in Hn5, Hf5. subst r5. unfold footprint in Hf5. inversion Hf5 as [[Ha5 Hr5 Hc5 Hp5]].
  assert (Hclip3 : opt_truthy (clipboard w3) = true).
  { rewrite Hc3, Hc2, Hc1.
    destruct (opt_truthy (clipboard w)) eqn:E; [exact E | exact Htruthy]. }
  rewrite Hclip3, orb_true_r in Hc4.
  exists w5. split; [reflexivity|].
  repeat split; congruence.
Qed.

End Success.

(** X19.  A request that succeeds.  With the lock free, a [ui] section
    that is a mapping, scripts that run, a known mode, a positive quota,
    at least one attempt allowed, a selection that is not blank and a
    provider whose first reply has a non-blank text: [handle_hotkey]
    ends normally with the lock free, has called the provider once, and
    has pasted the stripped reply, once.  A clipboard that held a
    non-empty string holds it again; an empty clipboard ends up holding
    the text that was selected. *)
Theorem handle_hotkey_success
        (env : Env) (config : dict) (c : GeminiClient) (mode : string)
        (text answer : pystr) (w : World) :
  lock_held w = false ->
  ui_is_mapping config = true ->
  (forall i, osascript_ok env i = true) ->
  0 < requests_per_minute c ->
  1 <= max_retries c ->
  In mode ["grammar_fix"; "formal"; "casual"; "simplify"; "expand"]%string ->
  selection env = Some text ->
  blank_input text = false ->
  provider env (api_calls w) = Responds answer ->
  strip answer <> [] ->
  fst (handle_hotkey env config c mode w) = Ok tt /\
  lock_held (snd (handle_hotkey env config c mode w)) = false /\
  api_calls (snd (handle_hotkey env config c mode w)) = S (api_calls w) /\
  pasted_so_far (snd (handle_hotkey env config c mode w)) =
    pasted_so_far w ++ [Some (strip answer)] /\
  clipboard (snd (handle_hotkey env config c mode w)) =
    (if opt_truthy (clipboard w) then clipboard w else Some text).
Proof.
  intros Hfree Hui Hscripts Hrpm Hretries Hmode Hsel Htext Hans Hstrip.
  destruct (hotkey_body_success env config c Hscripts Hui mode text answer
              (set_lock_held true w) Hrpm Hretries Hmode Hsel Htext Hans Hstrip)
    as (w1 & Hb & Ha & Hp & Hc).
  assert (E : handle_hotkey env config c mode w = (Ok tt, lock_release w1)).
  { unfold handle_hotkey, lock_acquire_nonblocking, bind. rewrite Hfree.
    unfold process_request, try_finally, try_except. now rewrite Hb. }
  rewrite E. simpl. auto.
Qed.

Lemma handle_hotkey_success_witness :
  let env := mkEnv (fun _ => Responds [32; 72; 105; 33; 10]%N) (fun _ => true)
                   (Some [104; 105]%N) in
  let w := mkWorld 100 [] 0 0 None [] false in
  fst (handle_hotkey env DEFAULT_CONFIG (mkClient 50 3) "grammar_fix" w) = Ok tt /\
  lock_held (snd (handle_hotkey env DEFAULT_CONFIG (mkClient 50 3) "grammar_fix" w)) = false /\
  api_calls (snd (handle_hotkey env DEFAULT_CONFIG (mkClient 50 3) "grammar_fix" w)) = 1%nat /\
  pasted_so_far (snd (handle_hotkey env DEFAULT_CONFIG (mkClient 50 3) "grammar_fix" w)) =
    pasted_so_far w ++ [Some (strip [32; 72; 105; 33; 10]%N)] /\
  clipboard (snd (handle_hotkey env DEFAULT_CONFIG (mkClient 50 3) "grammar_fix" w)) =
    Some [104; 105]%N.
Proof.
  intros env w.
  apply (handle_hotkey_success env DEFAULT_CONFIG (mkClient 50 3) "grammar_fix"
           [104; 105]%N [32; 72; 105; 33; 10]%N w); try reflexivity.
  - simpl. lia.
  - simpl. tauto.
  - discriminate.
Defined.

(** ** [GeminiClient._check_rate_limit]: when it does not wait *)

Lemma limiter_no_wait (c : GeminiClient) (w : World) :
  Z.of_nat (List.length (request_times w)) < requests_per_minute c ->
  _check_rate_limit c w =
  (Ok tt, set_request_times
            (discard_old (clock w) (request_times w) ++ [clock w]) w).
Proof.
  intros Hroom.
  pose proof (discard_old_length (clock w) (request_times w)) as Hlen.
  rewrite check_rate_limit_run by lia.
  unfold limiter_wait.
  replace (requests_per_minute c <=?
           Z.of_nat (List.length (discard_old (clock w) (request_times w))))
    with false by (symmetry; apply Z.leb_gt; lia).
  unfold limiter_world. rewrite deque_append_room by lia. reflexivity.
Qed.

(** X20.  A client whose record has room for all the requests to come
    (in particular a fresh client receiving at most [requests_per_minute]
    requests) lets every one of them through at once: the limiter never
    sleeps, however close together the requests arrive. *)
Theorem run_limiter_burst (c : GeminiClient) (gaps : list Q) :
  forall (w : World),
    Z.of_nat (List.length (request_times w) + List.length gaps) <= requests_per_minute c ->
    fst (run_limiter c gaps w) = Ok tt /\
    trace (snd (run_limiter c gaps w)) = trace w /\
    List.length (issued c gaps w) = List.length gaps.
Proof.
  induction gaps as [|gap rest IH]; intros w Hroom; simpl; [auto|].
  set (w0 := set_clock (clock w + gap)%Q w).
  assert (H0 : Z.of_nat (List.length (request_times w0)) < requests_per_minute c).
  { simpl in *. lia. }
  rewrite (limiter_no_wait c w0 H0).
  set (w1 := set_request_times (discard_old (clock w0) (request_times w0) ++ [clock w0]) w0).
  destruct (IH w1) as (Hr & Ht & Hl).
  { unfold w1, w0. simpl request_times. rewrite length_app.
    pose proof (discard_old_length (clock w + gap)%Q (request_times w)).
    change (List.length (gap :: rest)) with (S (List.length rest)) in Hroom.
    simpl List.length. simpl clock. lia. }
  split; [exact Hr|]. split; [rewrite Ht; reflexivity|].
  simpl. now rewrite Hl.
Qed.

Lemma run_limiter_burst_witness :
  let w := mkWorld 100 [] 0 0 None [] false in
  fst (run_limiter (mkClient 3 3) [0; 0; 0]%Q w) = Ok tt /\
  trace (snd (run_limiter (mkClient 3 3) [0; 0; 0]%Q w)) = trace w /\
  List.length (issued (mkClient 3 3) [0; 0; 0]%Q w) = 3%nat.
Proof.
  intros w.
  apply (run_limiter_burst (mkClient 3 3) [0; 0; 0]%Q w). simpl. lia.
Defined.

Lemma discard_old_all (now : Q) (times : list Q) :
  Forall (fun t => t + 60 < now)%Q times -> discard_old now times = [].
Proof.
  induction 1 as [|t r Ht _ IH]; simpl; auto.
  destruct (Qlt_le_dec 60 (now - t)); [assumption | lra].
Qed.

(** X21.  After more than 60 seconds without a request (every recorded
    timestamp is more than 60 seconds old), the limiter lets the next
    request through without sleeping and starts over: the record then
    holds the new timestamp only. *)
Theorem check_rate_limit_after_idle (c : GeminiClient) (w : World) :
  0 < requests_per_minute c ->
  Forall (fun t => t + 60 < clock w)%Q (request_times w) ->
  _check_rate_limit c w = (Ok tt, set_request_times [clock w] w).
Proof.
  intros Hrpm Hold.
  rewrite check_rate_limit_run by assumption.
  unfold limiter_wait, limiter_world.
  rewrite (discard_old_all (clock w) (request_times w) Hold). simpl List.length.
  replace (requests_per_minute c <=? Z.of_nat 0) with false
    by (symmetry; apply Z.leb_gt; lia).
  rewrite deque_append_room by (simpl; lia). reflexivity.
Qed.

Lemma check_rate_limit_after_idle_witness :
  let w := mkWorld 200 [] 0 0 None [30; 50; 70]%Q false in
  _check_rate_limit (mkClient 3 3) w = (Ok tt, set_request_times [200]%Q w).
Proof.
  intros w.
  apply (check_rate_limit_after_idle (mkClient 3 3) w).
  - reflexivity.
  - repeat constructor.
Defined.
